(** * array_extras: shifting and bordering of 2D arrays

    A shallow embedding of [src/array_extras.py] (functions [shift_2d] and
    [add_border_2d]) together with the small fragment of NumPy they rely on:
    basic slicing with Python's index clipping, slice assignment with
    broadcasting, [np.tile], [np.vstack], [np.hstack], [np.zeros] and
    [np.zeros_like].  NumPy's [ValueError] is modelled by an explicit
    result type. *)

From stdpp Require Import prelude.
From Stdlib Require Import ZArith Lia.

Open Scope Z_scope.

(** ** Exceptions *)

Inductive exn : Type := ValueError.

Inductive result (A : Type) : Type :=
| Ok (a : A)
| Raise (e : exn).
Arguments Ok {A} a.
Arguments Raise {A} e.

Definition bind {A B : Type} (m : result A) (k : A -> result B) : result B :=
  match m with
  | Ok a => k a
  | Raise e => Raise e
  end.

Notation "x <-- m ;; k" := (bind m (fun x => k))
  (at level 100, m at next level, right associativity).

Definition raises {A : Type} (m : result A) : bool :=
  match m with
  | Ok _ => false
  | Raise _ => true
  end.

(** ** Two-dimensional arrays

    An array of shape [(nrows, ncols)] is its list of rows.  The column count
    is stored, since NumPy keeps it for an array without rows (shape
    [(0, n)]). *)

Record ndarray : Type := NdArray { ncols : nat; rows : list (list Z) }.

Definition nrows (a : ndarray) : nat := length (rows a).

Definition wf (a : ndarray) : Prop :=
  Forall (fun r => length r = ncols a) (rows a).

(** [a[i, j]], when in range. *)
Definition get (a : ndarray) (i j : nat) : option Z :=
  match rows a !! i with
  | Some r => r !! j
  | None => None
  end.

(** Every element of the array satisfies [P]. *)
Definition all_elems (P : Z -> Prop) (a : ndarray) : Prop :=
  Forall (Forall P) (rows a).

(** ** Python slices (step 1)

    [adjust] is CPython's clipping of one slice bound against a length:
    a negative bound counts from the end and is clipped at 0, a bound beyond
    the length is clipped at the length. *)

Definition adjust (len : nat) (i : Z) : nat :=
  if i <? 0 then Z.to_nat (Z.max 0 (i + Z.of_nat len))
  else Z.to_nat (Z.min i (Z.of_nat len)).

Record slice : Type := Slice { sl_start : option Z; sl_stop : option Z }.

(** [a:b], [a:], [:b] and [:] *)
Definition sl (a b : Z) : slice := Slice (Some a) (Some b).
Definition sl_from (a : Z) : slice := Slice (Some a) None.
Definition sl_to (b : Z) : slice := Slice None (Some b).
Definition sl_all : slice := Slice None None.

Definition slice_lo (len : nat) (s : slice) : nat :=
  from_option (adjust len) 0%nat (sl_start s).
Definition slice_hi (len : nat) (s : slice) : nat :=
  from_option (adjust len) len (sl_stop s).
Definition slice_len (len : nat) (s : slice) : nat :=
  (slice_hi len s - slice_lo len s)%nat.

(** The cells [lo, lo + n) of a list. *)
Definition sub_list {A : Type} (lo n : nat) (l : list A) : list A :=
  take n (drop lo l).

(** ** The NumPy fragment *)

(** [np.zeros((n, m))] *)
Definition zeros (n m : nat) : ndarray :=
  NdArray m (replicate n (replicate m 0)).

Definition np_zeros (n m : Z) : result ndarray :=
  if (n <? 0) || (m <? 0) then Raise ValueError
  else Ok (zeros (Z.to_nat n) (Z.to_nat m)).

(** [np.zeros_like(a)] *)
Definition zeros_like (a : ndarray) : ndarray := zeros (nrows a) (ncols a).

(** [a[sr, sc]] for two slices (a copy of the selected region). *)
Definition getitem (a : ndarray) (sr sc : slice) : ndarray :=
  NdArray (slice_len (ncols a) sc)
    (map (sub_list (slice_lo (ncols a) sc) (slice_len (ncols a) sc))
       (sub_list (slice_lo (nrows a) sr) (slice_len (nrows a) sr) (rows a))).

(** Broadcasting of a list along one axis: a one-element list is repeated. *)
Definition bcast {A : Type} (n : nat) (l : list A) : list A :=
  match l with
  | [x] => replicate n x
  | _ => l
  end.

(** Broadcast [v] to shape [(n, m)]: each axis of [v] has the target length
    or length 1, a [ValueError] otherwise. *)
Definition broadcast_to (v : ndarray) (n m : nat) : result ndarray :=
  if decide ((nrows v = n \/ nrows v = 1%nat) /\ (ncols v = m \/ ncols v = 1%nat))
  then Ok (NdArray m (bcast n (map (bcast m) (rows v))))
  else Raise ValueError.

(** [a[sr, sc] = v]: the new contents of [a]. *)
Definition setitem (a : ndarray) (sr sc : slice) (v : ndarray) : result ndarray :=
  let rlo := slice_lo (nrows a) sr in
  let rn := slice_len (nrows a) sr in
  let clo := slice_lo (ncols a) sc in
  let cn := slice_len (ncols a) sc in
  v' <-- broadcast_to v rn cn ;;
  Ok (NdArray (ncols a)
        (take rlo (rows a)
         ++ zip_with (fun r w => take clo r ++ w ++ drop (clo + cn) r)
              (sub_list rlo rn (rows a)) (rows v')
         ++ drop (rlo + rn) (rows a))).

(** [np.tile(a, (qr, qc))] *)
Definition tile_nat (a : ndarray) (qr qc : nat) : ndarray :=
  NdArray (ncols a * qc)
    (concat (replicate qr (map (fun r => concat (replicate qc r)) (rows a)))).

Definition tile (a : ndarray) (reps : Z * Z) : result ndarray :=
  let '(qr, qc) := reps in
  if (qr <? 0) || (qc <? 0) then Raise ValueError
  else Ok (tile_nat a (Z.to_nat qr) (Z.to_nat qc)).

(** [np.vstack((a, b))] *)
Definition vstack (a b : ndarray) : result ndarray :=
  if decide (ncols a = ncols b) then Ok (NdArray (ncols a) (rows a ++ rows b))
  else Raise ValueError.

(** [np.hstack((a, b))] *)
Definition hstack (a b : ndarray) : result ndarray :=
  if decide (nrows a = nrows b)
  then Ok (NdArray (ncols a + ncols b) (zip_with app (rows a) (rows b)))
  else Raise ValueError.

(** ** The functions of [array_extras.py] *)

(** The number of tiles: [quot = n // stride], one more when
    [m % stride != 0]. *)
Definition tile_count (n m stride : Z) : Z :=
  let quot := n / stride in
  let rem := m mod stride in
  if rem =? 0 then quot else quot + 1.

(** The row pass of [shift_2d] (source lines 45-66).  [quot] is bound in
    the source only when [stride > 0], and read only then. *)
Definition shift_rows (arr : ndarray) (shift_row stride : Z) : result ndarray :=
  let row_arr := zeros_like arr in
  let quot := tile_count (Z.abs shift_row) shift_row stride in
  if 0 <? shift_row then
    if 0 <? stride then
      t <-- tile (getitem arr (sl_to stride) sl_all) (quot, 1) ;;
      let stride_arr := getitem t (sl_from (- shift_row)) sl_all in
      vstack stride_arr (getitem arr (sl_to (- shift_row)) sl_all)
    else
      setitem row_arr (sl_from shift_row) sl_all
        (getitem arr (sl_to (- shift_row)) sl_all)
  else if shift_row <? 0 then
    if 0 <? stride then
      t <-- tile (getitem arr (sl_from (- stride)) sl_all) (quot, 1) ;;
      let stride_arr := getitem t (sl_to (- shift_row)) sl_all in
      vstack (getitem arr (sl_from (- shift_row)) sl_all) stride_arr
    else
      setitem row_arr (sl_to shift_row) sl_all
        (getitem arr (sl_from (- shift_row)) sl_all)
  else
    setitem row_arr sl_all sl_all (getitem arr sl_all sl_all).

(** The column pass of [shift_2d] (source lines 69-89), on the row-shifted
    [row_arr]; [new_arr] is [np.zeros_like(arr)]. *)
Definition shift_cols (arr row_arr : ndarray) (shift_col stride : Z)
  : result ndarray :=
  let quot := tile_count (Z.abs shift_col) shift_col stride in
  let new_arr := zeros_like arr in
  if 0 <? shift_col then
    if 0 <? stride then
      t <-- tile (getitem row_arr sl_all (sl_to stride)) (1, quot) ;;
      let stride_arr := getitem t sl_all (sl_from (- shift_col)) in
      hstack stride_arr (getitem row_arr sl_all (sl_to (- shift_col)))
    else
      setitem new_arr sl_all (sl_from shift_col)
        (getitem row_arr sl_all (sl_to (- shift_col)))
  else if shift_col <? 0 then
    if 0 <? stride then
      t <-- tile (getitem row_arr sl_all (sl_from (- stride))) (1, quot) ;;
      let stride_arr := getitem t sl_all (sl_to (- shift_col)) in
      hstack (getitem row_arr sl_all (sl_from (- shift_col))) stride_arr
    else
      setitem new_arr sl_all (sl_to shift_col)
        (getitem row_arr sl_all (sl_from (- shift_col)))
  else
    setitem new_arr sl_all sl_all (getitem row_arr sl_all sl_all).

(** [shift_2d(arr, shifts, stride)] *)
Definition shift_2d (arr : ndarray) (shifts : Z * Z) (stride : Z)
  : result ndarray :=
  let '(shift_row, shift_col) := shifts in
  row_arr <-- shift_rows arr shift_row stride ;;
  shift_cols arr row_arr shift_col stride.

(** The four border fills of [add_border_2d] (source lines 132-147).  The
    blocks [arr_t], [arr_b], [arr_l] are views of [new_arr]; each is copied
    by [np.tile] before [new_arr] is written again, so reading them from the
    current [new_arr] is exact. *)
Definition fill_top (new_arr : ndarray) (border_width stride quot : Z)
  : result ndarray :=
  let arr_t := getitem new_arr (sl border_width (border_width + stride)) sl_all in
  t <-- tile arr_t (quot, 1) ;;
  setitem new_arr (sl_to border_width) sl_all
    (getitem t (sl_to border_width) sl_all).

Definition fill_bottom (new_arr : ndarray) (border_width stride quot : Z)
  : result ndarray :=
  let arr_b :=
    getitem new_arr (sl (- (border_width + stride)) (- border_width)) sl_all in
  t <-- tile arr_b (quot, 1) ;;
  setitem new_arr (sl_from (- border_width)) sl_all
    (getitem t (sl_to border_width) sl_all).

Definition fill_left (new_arr : ndarray) (border_width stride quot : Z)
  : result ndarray :=
  let arr_l := getitem new_arr sl_all (sl border_width (border_width + stride)) in
  t <-- tile arr_l (1, quot) ;;
  setitem new_arr sl_all (sl_to border_width)
    (getitem t sl_all (sl_to border_width)).

Definition fill_right (new_arr : ndarray) (border_width stride quot : Z)
  : result ndarray :=
  let arr_b :=
    getitem new_arr sl_all (sl (- (border_width + stride)) (- border_width)) in
  t <-- tile arr_b (1, quot) ;;
  setitem new_arr sl_all (sl_from (- border_width))
    (getitem t sl_all (sl_to border_width)).

(** The array after source lines 119-124: zeros with [arr] pasted in. *)
Definition bordered_zeros (arr : ndarray) (border_width : Z) : result ndarray :=
  let new_x := Z.of_nat (nrows arr) + border_width * 2 in
  let new_y := Z.of_nat (ncols arr) + border_width * 2 in
  new_arr <-- np_zeros new_x new_y ;;
  setitem new_arr (sl border_width (- border_width))
    (sl border_width (- border_width)) arr.

(** [add_border_2d(arr, border_width, stride)] *)
Definition add_border_2d (arr : ndarray) (border_width stride : Z)
  : result ndarray :=
  new_arr <-- bordered_zeros arr border_width ;;
  if 0 <? stride then
    let quot := tile_count border_width border_width stride in
    new_arr <-- fill_top new_arr border_width stride quot ;;
    new_arr <-- fill_bottom new_arr border_width stride quot ;;
    new_arr <-- fill_left new_arr border_width stride quot ;;
    fill_right new_arr border_width stride quot
  else
    Ok new_arr.

(** ** The demonstration grid: 6 x 6, values 1..36 in row-major order *)

Definition arange_grid (r c : nat) : ndarray :=
  NdArray c
    (map (fun i => map (fun j => Z.of_nat (i * c + j + 1)) (seq 0 c)) (seq 0 r)).

Definition grid6 : ndarray := arange_grid 6 6.

Close Scope Z_scope.

(** ** Arrays as index functions

    The proofs read an array through its shape and its cells:
    [is_grid a n m f] says that [a] is a rectangular array of shape
    [(n, m)] whose cell [(i, j)] holds [f i j]. *)

Definition is_grid (a : ndarray) (n m : nat) (f : nat -> nat -> Z) : Prop :=
  nrows a = n /\ ncols a = m /\ wf a /\
  forall i j, i < n -> j < m -> get a i j = Some (f i j).

(** The cell [(i, j)], 0 out of range. *)
Definition cell (a : ndarray) (i j : nat) : Z := default 0%Z (get a i j).

(** [src_index n shift stride i]: for [shift_2d] with [stride > 0], the index
    along one axis of length [n] of the input cell that lands at output
    index [i]. *)
Definition src_index (n : nat) (shift stride : Z) (i : nat) : nat :=
  let k := Nat.min (Z.to_nat stride) n in
  let q := Z.to_nat (tile_count (Z.abs shift) shift stride) in
  let s := Z.to_nat (Z.abs shift) in
  if (0 <? shift)%Z then
    if decide (i < s) then (q * k - s + i) mod k else i - s
  else if (shift <? 0)%Z then
    if decide (i < n - s) then i + s else n - k + (i - (n - s)) mod k
  else i.

(** The length of the source block of a border fill along an axis of interior
    length [n]: [stride], clipped by the end of the enlarged array. *)
Definition block_len (bw stride : Z) (n : nat) : nat :=
  Nat.min (Z.to_nat stride) (n + Z.to_nat bw).

(** The contents after each step of [add_border_2d], as index functions:
    [b] is the border width, [n x m] the shape of the input, [kr] and [kc]
    the lengths of the row and column source blocks. *)

Definition center_fn (b n m : nat) (f : nat -> nat -> Z) : nat -> nat -> Z :=
  fun i j =>
    if decide ((b <= i < b + n) /\ (b <= j < b + m)) then f (i - b) (j - b)
    else 0%Z.

Definition top_fn (b kr : nat) (f : nat -> nat -> Z) : nat -> nat -> Z :=
  fun i j => if decide (i < b) then f (b + i mod kr) j else f i j.

Definition bottom_fn (b kr n : nat) (f : nat -> nat -> Z) : nat -> nat -> Z :=
  fun i j =>
    if decide (n + b <= i) then f (n + b - kr + (i - (n + b)) mod kr) j
    else f i j.

Definition left_fn (b kc : nat) (f : nat -> nat -> Z) : nat -> nat -> Z :=
  fun i j => if decide (j < b) then f i (b + j mod kc) else f i j.

Definition right_fn (b kc m : nat) (f : nat -> nat -> Z) : nat -> nat -> Z :=
  fun i j =>
    if decide (m + b <= j) then f i (m + b - kc + (j - (m + b)) mod kc)
    else f i j.

Definition border_fn (b kr kc n m : nat) (f : nat -> nat -> Z)
  : nat -> nat -> Z :=
  right_fn b kc m (left_fn b kc (bottom_fn b kr n (top_fn b kr (center_fn b n m f)))).

(** With a valid stride ([stride <= rows], [stride <= cols]) output cell
    [(i, j)] of [add_border_2d] is input cell
    [(border_src .. i, border_src .. j)]. *)
Definition border_src (b st n i : nat) : nat :=
  if decide (i < b) then i mod st
  else if decide (i < b + n) then i - b
  else n - st + (i - (n + b)) mod st.

(** Rows repeating with period [p]. *)
Definition row_periodic (p : nat) (a : ndarray) : Prop :=
  forall i, i + p < nrows a -> rows a !! i = rows a !! (i + p).

(** Rows of period 2: [[1, 2], [3, 4], [1, 2], [3, 4]]. *)
Definition stripes : ndarray :=
  NdArray 2 [[1; 2]; [3; 4]; [1; 2]; [3; 4]]%Z.

(** The elements of an array, row by row. *)
Definition elements (a : ndarray) : list Z := concat (rows a).

(** [P] holds of every element of the array a call returned, if any. *)
Definition res_all (P : Z -> Prop) (r : result ndarray) : Prop :=
  match r with
  | Ok a => all_elems P a
  | Raise _ => True
  end.

(** [z] clamped to the indices [0 .. n-1] of an axis of length [n]. *)
Definition clamp (n : nat) (z : Z) : nat :=
  Z.to_nat (Z.max 0 (Z.min z (Z.of_nat n - 1))).

(** The phase of [z] in a pattern of period [p]. *)
Definition phase (p : nat) (z : Z) : nat := Z.to_nat (z mod Z.of_nat p).

(** [a] is a mosaic: the [p x q] pattern [pat] repeated from cell (0, 0),
    as a colour-filter array repeats its 2 x 2 Bayer cell. *)
Definition mosaic (p q : nat) (pat : nat -> nat -> Z) (a : ndarray) : Prop :=
  forall i j, i < nrows a -> j < ncols a ->
    get a i j = Some (pat (i mod p) (j mod q)).

(** A 4 x 4 mosaic of the 2 x 2 cell [[1, 2], [3, 4]]. *)
Definition bayer_cell (i j : nat) : Z := Z.of_nat (1 + 2 * i + j).

Definition bayer : ndarray :=
  NdArray 4 [[1; 2; 1; 2]; [3; 4; 3; 4]; [1; 2; 1; 2]; [3; 4; 3; 4]]%Z.

(** [a.T] *)
Definition transpose (a : ndarray) : ndarray :=
  NdArray (nrows a)
    (map (fun j => map (fun r => nth j r 0%Z) (rows a)) (seq 0 (ncols a))).

(** ** Index arithmetic of slices *)

Lemma adjust_le len i : adjust len i <= len.
Proof. unfold adjust. destruct (Z.ltb_spec i 0); lia. Qed.

Lemma adjust_nonneg len i : (0 <= i)%Z -> adjust len i = Nat.min (Z.to_nat i) len.
Proof. intros. unfold adjust. destruct (Z.ltb_spec i 0); lia. Qed.

Lemma adjust_neg len i : (i < 0)%Z -> adjust len i = len - Z.to_nat (- i).
Proof. intros. unfold adjust. destruct (Z.ltb_spec i 0); lia. Qed.

Lemma slice_fits len s : slice_lo len s + slice_len len s <= len.
Proof.
  unfold slice_len, slice_lo, slice_hi.
  destruct s as [[a|] [b|]]; cbn [from_option sl_start sl_stop];
    try pose proof (adjust_le len a); try pose proof (adjust_le len b); lia.
Qed.

Lemma slice_all_lo len : slice_lo len sl_all = 0.
Proof. reflexivity. Qed.

Lemma slice_all_len len : slice_len len sl_all = len.
Proof.
  unfold slice_len, slice_hi, slice_lo.
  cbn [from_option sl_all sl_start sl_stop]. lia.
Qed.

Lemma sub_list_lookup {A} lo n (l : list A) i :
  sub_list lo n l !! i = if decide (i < n) then l !! (lo + i) else None.
Proof.
  unfold sub_list. rewrite lookup_take. case_decide; [|done].
  by rewrite lookup_drop.
Qed.

Lemma sub_list_length {A} lo n (l : list A) :
  lo + n <= length l -> length (sub_list lo n l) = n.
Proof. intros. unfold sub_list. rewrite length_take, length_drop. lia. Qed.

Lemma sub_list_full {A} (l : list A) : sub_list 0 (length l) l = l.
Proof. unfold sub_list. rewrite drop_0. by apply take_ge. Qed.

(** ** The NumPy fragment on index functions *)

Lemma wf_lookup a i r : wf a -> rows a !! i = Some r -> length r = ncols a.
Proof. intros Hwf Hr. exact (proj1 (Forall_lookup _ _) Hwf i r Hr). Qed.

Lemma is_grid_self a : wf a -> is_grid a (nrows a) (ncols a) (cell a).
Proof.
  intros Hwf. repeat split; trivial.
  intros i j Hi Hj. unfold cell, get.
  destruct (lookup_lt_is_Some_2 (rows a) i Hi) as [r Hr]. rewrite Hr.
  pose proof (wf_lookup _ _ _ Hwf Hr) as Hlen.
  destruct (lookup_lt_is_Some_2 r j ltac:(lia)) as [x Hx].
  by rewrite Hx.
Qed.

Lemma is_grid_proper a n m f g :
  is_grid a n m f ->
  (forall i j, i < n -> j < m -> f i j = g i j) ->
  is_grid a n m g.
Proof.
  intros (Hn & Hm & Hwf & Hget) Hfg. repeat split; trivial.
  intros i j Hi Hj. rewrite <- Hfg by trivial. by apply Hget.
Qed.

Lemma is_grid_cell a n m f i j :
  is_grid a n m f -> i < n -> j < m -> cell a i j = f i j.
Proof. intros (_ & _ & _ & Hget) Hi Hj. unfold cell. by rewrite Hget. Qed.

Lemma is_grid_ext a b n m f g :
  is_grid a n m f -> is_grid b n m g ->
  (forall i j, i < n -> j < m -> f i j = g i j) ->
  a = b.
Proof.
  intros (Hn & Hm & Hwf & Hget) (Hn' & Hm' & Hwf' & Hget') Hfg.
  destruct a as [ma ra], b as [mb rb]. unfold nrows, wf, get in *. simpl in *.
  subst mb. f_equal; [congruence|].
  apply list_eq_same_length with n; trivial.
  intros i r r' Hi Hr Hr'.
  pose proof (proj1 (Forall_lookup _ _) Hwf i r Hr) as Hl. simpl in Hl.
  pose proof (proj1 (Forall_lookup _ _) Hwf' i r' Hr') as Hl'. simpl in Hl'.
  apply list_eq_same_length with m; try congruence.
  intros j x y Hj Hx Hy.
  specialize (Hget i j Hi Hj). specialize (Hget' i j Hi Hj).
  rewrite Hr in Hget. rewrite Hr' in Hget'.
  specialize (Hfg i j Hi Hj). congruence.
Qed.

Lemma is_grid_zeros n m : is_grid (zeros n m) n m (fun _ _ => 0%Z).
Proof.
  unfold is_grid, zeros, nrows, wf, get. simpl. repeat split.
  - apply length_replicate.
  - apply Forall_replicate. apply length_replicate.
  - intros i j Hi Hj. rewrite lookup_replicate_2 by trivial.
    by apply lookup_replicate_2.
Qed.

Lemma is_grid_getitem a n m f sr sc :
  is_grid a n m f ->
  is_grid (getitem a sr sc) (slice_len n sr) (slice_len m sc)
    (fun i j => f (slice_lo n sr + i) (slice_lo m sc + j)).
Proof.
  intros (Hn & Hm & Hwf & Hget). unfold getitem. rewrite Hn, Hm.
  pose proof (slice_fits n sr) as Hr. pose proof (slice_fits m sc) as Hc.
  unfold is_grid, nrows, wf, get. cbn [rows ncols]. repeat split.
  - rewrite length_map. apply sub_list_length. unfold nrows in Hn. lia.
  - apply Forall_fmap. unfold sub_list at 2.
    apply Forall_take, Forall_drop. eapply Forall_impl; [exact Hwf|].
    intros r Hl. cbn beta in *. apply sub_list_length. lia.
  - intros i j Hi Hj. rewrite list_lookup_fmap, sub_list_lookup.
    rewrite decide_True by trivial.
    specialize (Hget (slice_lo n sr + i) (slice_lo m sc + j)
                  ltac:(lia) ltac:(lia)).
    unfold get in Hget.
    destruct (rows a !! (slice_lo n sr + i)) as [r|]; [|done]. cbn [fmap option_fmap option_map].
    rewrite sub_list_lookup. by rewrite decide_True.
Qed.

Lemma bcast_same {A} n (l : list A) : length l = n -> bcast n l = l.
Proof. destruct l as [|x [|y l]]; simpl; trivial. by intros <-. Qed.

Lemma broadcast_to_same v n m :
  wf v -> nrows v = n -> ncols v = m -> broadcast_to v n m = Ok v.
Proof.
  intros Hwf Hn Hm. unfold broadcast_to. rewrite decide_True by tauto.
  destruct v as [mv rv]. unfold nrows, wf in *. simpl in *. subst mv.
  f_equal. f_equal. rewrite bcast_same by (by rewrite length_map).
  rewrite <- (list_fmap_id rv) at 2. apply Forall_fmap_ext_1.
  eapply Forall_impl; [exact Hwf|]. intros r Hr. by apply bcast_same.
Qed.

(** Overwriting the cells [lo, lo + length w) of a list. *)
Lemma paste_length {A} lo (w r : list A) :
  lo + length w <= length r ->
  length (take lo r ++ w ++ drop (lo + length w) r) = length r.
Proof. intros. rewrite !length_app, length_take, length_drop. lia. Qed.

Lemma paste_lookup {A} lo (w r : list A) j :
  lo + length w <= length r ->
  (take lo r ++ w ++ drop (lo + length w) r) !! j =
  if decide (lo <= j < lo + length w) then w !! (j - lo) else r !! j.
Proof.
  intros Hfit.
  destruct (decide (j < lo)) as [Hlt|Hge].
  - rewrite lookup_app_l by (rewrite length_take; lia).
    rewrite lookup_take_lt by trivial. by rewrite decide_False by lia.
  - rewrite lookup_app_r by (rewrite length_take; lia).
    rewrite length_take. replace (j - lo `min` length r) with (j - lo) by lia.
    case_decide.
    + by rewrite lookup_app_l by lia.
    + rewrite lookup_app_r by lia. rewrite lookup_drop. f_equal. lia.
Qed.

Lemma is_grid_setitem a n m f v g sr sc :
  is_grid a n m f ->
  is_grid v (slice_len n sr) (slice_len m sc) g ->
  exists a',
    setitem a sr sc v = Ok a' /\
    is_grid a' n m
      (fun i j =>
         if decide ((slice_lo n sr <= i < slice_lo n sr + slice_len n sr) /\
                    (slice_lo m sc <= j < slice_lo m sc + slice_len m sc))
         then g (i - slice_lo n sr) (j - slice_lo m sc)
         else f i j).
Proof.
  intros (Hn & Hm & Hwf & Hget) (Hn' & Hm' & Hwf' & Hget').
  unfold setitem. rewrite Hn, Hm.
  rewrite (broadcast_to_same v _ _ Hwf' Hn' Hm'). cbn [bind].
  pose proof (slice_fits n sr) as Hr. pose proof (slice_fits m sc) as Hc.
  set (rlo := slice_lo n sr) in *. set (rn := slice_len n sr) in *.
  set (clo := slice_lo m sc) in *. set (cn := slice_len m sc) in *.
  set (mid := zip_with _ _ _).
  assert (Hmid : length mid = rn).
  { unfold mid. rewrite length_zip_with, sub_list_length
      by (unfold nrows in Hn; lia).
    unfold nrows in Hn'. lia. }
  assert (Hrows : forall i,
    (take rlo (rows a) ++ mid ++ drop (rlo + rn) (rows a)) !! i =
    if decide (rlo <= i < rlo + rn) then mid !! (i - rlo) else rows a !! i).
  { intros i. rewrite <- Hmid. apply paste_lookup.
    unfold nrows in Hn. lia. }
  assert (Hmidl : forall i, i < rn ->
    exists r w, rows a !! (rlo + i) = Some r /\ rows v !! i = Some w /\
      mid !! i = Some (take clo r ++ w ++ drop (clo + cn) r)).
  { intros i Hi.
    destruct (lookup_lt_is_Some_2 (rows a) (rlo + i)) as [r Hrr];
      [unfold nrows in Hn; lia|].
    destruct (lookup_lt_is_Some_2 (rows v) i) as [w Hw];
      [unfold nrows in Hn'; lia|].
    exists r, w. repeat split; trivial.
    unfold mid. rewrite lookup_zip_with, sub_list_lookup.
    rewrite decide_True by trivial. by rewrite Hrr, Hw. }
  eexists. split; [reflexivity|].
  unfold is_grid, nrows, wf, get. cbn [rows ncols]. repeat split.
  - rewrite <- Hmid. rewrite paste_length; unfold nrows in Hn; lia.
  - apply Forall_lookup. intros i r Hi. rewrite Hrows in Hi.
    case_decide as Hin.
    + destruct (Hmidl (i - rlo) ltac:(lia)) as (r0 & w & Hr0 & Hw & Hm0).
      rewrite Hm0 in Hi. injection Hi as <-.
      pose proof (wf_lookup _ _ _ Hwf Hr0). pose proof (wf_lookup _ _ _ Hwf' Hw).
      replace cn with (length w) by lia. rewrite paste_length; lia.
    + rewrite <- Hm. by apply (wf_lookup _ _ _ Hwf Hi).
  - intros i j Hi Hj. rewrite Hrows.
    destruct (decide (rlo <= i < rlo + rn)) as [Hin|Hout].
    + destruct (Hmidl (i - rlo) ltac:(lia)) as (r0 & w & Hr0 & Hw & Hm0).
      rewrite Hm0.
      pose proof (wf_lookup _ _ _ Hwf Hr0). pose proof (wf_lookup _ _ _ Hwf' Hw).
      replace cn with (length w) by lia. rewrite paste_lookup by lia.
      replace (length w) with cn by lia.
      destruct (decide (clo <= j < clo + cn)) as [Hjin|Hjout].
      * rewrite decide_True by tauto.
        specialize (Hget' (i - rlo) (j - clo) ltac:(lia) ltac:(lia)).
        unfold get in Hget'. by rewrite Hw in Hget'.
      * rewrite decide_False by tauto.
        specialize (Hget i j Hi Hj). unfold get in Hget.
        replace (rlo + (i - rlo)) with i in Hr0 by lia.
        by rewrite Hr0 in Hget.
    + rewrite decide_False by tauto. by apply Hget.
Qed.

Lemma concat_replicate_length {A} q (l : list A) :
  length (concat (replicate q l)) = q * length l.
Proof. induction q; simpl; [done|]. rewrite length_app. lia. Qed.

Lemma concat_replicate_lookup {A} q (l : list A) i :
  i < q * length l ->
  concat (replicate q l) !! i = l !! (i mod length l).
Proof.
  revert i. induction q as [|q IH]; intros i Hi; [lia|]. simpl.
  destruct (decide (i < length l)) as [Hlt|Hge].
  - rewrite lookup_app_l by trivial. by rewrite Nat.mod_small.
  - rewrite lookup_app_r by lia. rewrite IH by lia. f_equal.
    replace i with ((i - length l) + 1 * length l) at 2 by lia.
    by rewrite Nat.Div0.mod_add.
Qed.

Lemma is_grid_tile_nat a n m f qr qc :
  is_grid a n m f ->
  is_grid (tile_nat a qr qc) (qr * n) (m * qc)
    (fun i j => f (i mod n) (j mod m)).
Proof.
  intros (Hn & Hm & Hwf & Hget). unfold nrows in Hn.
  unfold is_grid, tile_nat, nrows, wf, get. cbn [rows ncols].
  assert (Hrowlen : Forall (fun r => length r = m * qc)
            (map (fun r => concat (replicate qc r)) (rows a))).
  { apply Forall_fmap. eapply Forall_impl; [exact Hwf|].
    intros r Hr. unfold compose. cbn beta in *.
    rewrite concat_replicate_length. lia. }
  repeat split.
  - rewrite concat_replicate_length, length_map. lia.
  - lia.
  - rewrite Hm. apply Forall_concat. by apply Forall_replicate.
  - intros i j Hi Hj.
    rewrite concat_replicate_lookup by (rewrite length_map; lia).
    rewrite length_map, Hn, list_lookup_fmap.
    assert (Hin : i mod n < n) by (apply Nat.mod_upper_bound; lia).
    assert (Hjm : j mod m < m) by (apply Nat.mod_upper_bound; lia).
    specialize (Hget (i mod n) (j mod m) Hin Hjm). unfold get in Hget.
    destruct (rows a !! (i mod n)) as [r|] eqn:Hr; [|done].
    cbn [fmap option_fmap option_map].
    pose proof (wf_lookup _ _ _ Hwf Hr) as Hl.
    rewrite concat_replicate_lookup by lia. by rewrite Hl, Hm.
Qed.

Lemma tile_ok a qr qc :
  (0 <= qr)%Z -> (0 <= qc)%Z ->
  tile a (qr, qc) = Ok (tile_nat a (Z.to_nat qr) (Z.to_nat qc)).
Proof.
  intros Hr Hc. unfold tile.
  destruct (Z.ltb_spec qr 0); [lia|]. destruct (Z.ltb_spec qc 0); [lia|].
  reflexivity.
Qed.

Lemma is_grid_vstack a b n1 n2 m f g :
  is_grid a n1 m f -> is_grid b n2 m g ->
  exists c,
    vstack a b = Ok c /\
    is_grid c (n1 + n2) m
      (fun i j => if decide (i < n1) then f i j else g (i - n1) j).
Proof.
  intros (Hn & Hm & Hwf & Hget) (Hn' & Hm' & Hwf' & Hget').
  unfold vstack. rewrite decide_True by congruence.
  eexists. split; [reflexivity|].
  unfold nrows in Hn, Hn'.
  unfold is_grid, nrows, wf, get. cbn [rows ncols]. repeat split.
  - rewrite length_app. lia.
  - trivial.
  - apply Forall_app. split; [exact Hwf|].
    eapply Forall_impl; [exact Hwf'|]. intros r Hr. cbn beta in *. congruence.
  - intros i j Hi Hj. case_decide.
    + rewrite lookup_app_l by lia. by apply Hget.
    + rewrite lookup_app_r by lia. rewrite Hn. apply Hget'; lia.
Qed.

Lemma is_grid_hstack a b n m1 m2 f g :
  is_grid a n m1 f -> is_grid b n m2 g ->
  exists c,
    hstack a b = Ok c /\
    is_grid c n (m1 + m2)
      (fun i j => if decide (j < m1) then f i j else g i (j - m1)).
Proof.
  intros (Hn & Hm & Hwf & Hget) (Hn' & Hm' & Hwf' & Hget').
  unfold hstack. rewrite decide_True by congruence.
  eexists. split; [reflexivity|].
  unfold nrows in Hn, Hn'.
  assert (Hz : forall i, i < n ->
    exists r w, rows a !! i = Some r /\ rows b !! i = Some w /\
      zip_with app (rows a) (rows b) !! i = Some (r ++ w)).
  { intros i Hi.
    destruct (lookup_lt_is_Some_2 (rows a) i) as [r Hr]; [lia|].
    destruct (lookup_lt_is_Some_2 (rows b) i) as [w Hw]; [lia|].
    exists r, w. repeat split; trivial.
    rewrite lookup_zip_with. by rewrite Hr, Hw. }
  unfold is_grid, nrows, wf, get. cbn [rows ncols]. repeat split.
  - rewrite length_zip_with. lia.
  - lia.
  - apply Forall_lookup. intros i r Hi.
    assert (Hlt : i < n).
    { apply lookup_lt_Some in Hi. rewrite length_zip_with in Hi. lia. }
    destruct (Hz i Hlt) as (r0 & w & Hr0 & Hw & Hrw).
    rewrite Hrw in Hi. injection Hi as <-. rewrite length_app.
    pose proof (wf_lookup _ _ _ Hwf Hr0). pose proof (wf_lookup _ _ _ Hwf' Hw).
    lia.
  - intros i j Hi Hj.
    destruct (Hz i Hi) as (r0 & w & Hr0 & Hw & Hrw). rewrite Hrw.
    pose proof (wf_lookup _ _ _ Hwf Hr0). pose proof (wf_lookup _ _ _ Hwf' Hw).
    case_decide.
    + rewrite lookup_app_l by lia.
      specialize (Hget i j Hi ltac:(lia)). unfold get in Hget.
      by rewrite Hr0 in Hget.
    + rewrite lookup_app_r by lia.
      specialize (Hget' i (j - m1) Hi ltac:(lia)). unfold get in Hget'.
      rewrite Hw in Hget'. replace (length r0) with m1 by lia. trivial.
Qed.

Lemma is_grid_reshape a n m n' m' f :
  is_grid a n m f -> n = n' -> m = m' -> is_grid a n' m' f.
Proof. by intros H <- <-. Qed.

(** ** The tile count covers the requested length *)

Lemma tile_count_abs s stride :
  (0 < stride)%Z ->
  (0 <= tile_count (Z.abs s) s stride)%Z /\
  (Z.abs s <= tile_count (Z.abs s) s stride * stride)%Z /\
  (s <> 0%Z -> 1 <= tile_count (Z.abs s) s stride)%Z.
Proof.
  intros Hs. unfold tile_count.
  assert (Hz : (s mod stride = 0 -> Z.abs s mod stride = 0)%Z).
  { intros H0. destruct (Z.abs_eq_or_opp s) as [->| ->]; trivial.
    by apply Z_mod_zero_opp_full. }
  assert (Hpos : (s <> 0 -> 0 < Z.abs s)%Z) by lia.
  revert Hz Hpos. generalize (Z.abs_nonneg s). generalize (Z.abs s).
  intros a Ha Hz Hpos.
  pose proof (Z.div_mod a stride ltac:(lia)) as Hd.
  pose proof (Z.mod_pos_bound a stride Hs) as Hb.
  pose proof (Z.div_pos a stride Ha Hs) as Hq.
  destruct (Z.eqb_spec (s mod stride) 0) as [H0|Hn0].
  - specialize (Hz H0). rewrite Hz in Hd.
    repeat split; [lia|lia|]. intros Hne. specialize (Hpos Hne). nia.
  - repeat split; [lia|nia|lia].
Qed.

Lemma tile_cover s stride (K : nat) :
  (0 < stride)%Z -> (Z.abs s <= Z.of_nat K)%Z ->
  Z.to_nat (Z.abs s)
  <= Z.to_nat (tile_count (Z.abs s) s stride) * Nat.min (Z.to_nat stride) K.
Proof.
  intros Hs HK. destruct (tile_count_abs s stride Hs) as (H0 & Hc & H1).
  destruct (Z.eq_dec s 0) as [->|Hne]; [simpl; lia|]. specialize (H1 Hne).
  destruct (Nat.min_spec (Z.to_nat stride) K) as [[_ ->]|[_ ->]].
  - rewrite <- Z2Nat.inj_mul by lia. apply Z2Nat.inj_le; lia.
  - assert (1 <= Z.to_nat (tile_count (Z.abs s) s stride)) by lia.
    assert (Z.to_nat (Z.abs s) <= K) by lia. nia.
Qed.

Ltac slice_arith :=
  unfold slice_len, slice_hi, slice_lo, sl, sl_from, sl_to, sl_all, adjust in *;
  cbn [from_option sl_start sl_stop] in *;
  repeat match goal with
    | |- context [Z.ltb ?a ?b] => destruct (Z.ltb_spec a b)
    | H : context [Z.ltb ?a ?b] |- _ => destruct (Z.ltb_spec a b)
    end;
  try lia.

Ltac grid_arith :=
  cbn beta; slice_arith; repeat case_decide; try lia;
  try (f_equal; lia).

Lemma is_grid_zeros_like arr n m f :
  is_grid arr n m f -> is_grid (zeros_like arr) n m (fun _ _ => 0%Z).
Proof.
  intros (Hn & Hm & _). unfold zeros_like. rewrite Hn, Hm.
  apply is_grid_zeros.
Qed.

(** ** [shift_2d] with zero fill ([stride <= 0]) *)

Lemma shift_rows_zero_fill arr n m f sr stride :
  is_grid arr n m f -> (stride <= 0)%Z ->
  exists out,
    shift_rows arr sr stride = Ok out /\
    is_grid out n m
      (fun i j =>
         if decide (sr <= Z.of_nat i < Z.of_nat n + sr)%Z
         then f (Z.to_nat (Z.of_nat i - sr)) j else 0%Z).
Proof.
  intros Harr Hs. unfold shift_rows.
  pose proof (is_grid_zeros_like _ _ _ _ Harr) as Hz.
  destruct (Z.ltb_spec 0 stride); [lia|].
  destruct (Z.ltb_spec 0 sr); [|destruct (Z.ltb_spec sr 0)].
  - pose proof (is_grid_getitem _ _ _ _ (sl_to (- sr)) sl_all Harr) as Hv.
    eapply (is_grid_reshape _ _ _ (slice_len n (sl_from sr)) (slice_len m sl_all))
      in Hv; [|slice_arith..].
    destruct (is_grid_setitem _ _ _ _ _ _ _ _ Hz Hv) as (out & Hout & Hg).
    exists out. split; [exact Hout|].
    eapply is_grid_proper; [exact Hg|]. intros i j Hi Hj. grid_arith.
  - pose proof (is_grid_getitem _ _ _ _ (sl_from (- sr)) sl_all Harr) as Hv.
    eapply (is_grid_reshape _ _ _ (slice_len n (sl_to sr)) (slice_len m sl_all))
      in Hv; [|slice_arith..].
    destruct (is_grid_setitem _ _ _ _ _ _ _ _ Hz Hv) as (out & Hout & Hg).
    exists out. split; [exact Hout|].
    eapply is_grid_proper; [exact Hg|]. intros i j Hi Hj. grid_arith.
  - pose proof (is_grid_getitem _ _ _ _ sl_all sl_all Harr) as Hv.
    destruct (is_grid_setitem _ _ _ _ _ _ _ _ Hz Hv) as (out & Hout & Hg).
    exists out. split; [exact Hout|].
    eapply is_grid_proper; [exact Hg|]. intros i j Hi Hj. grid_arith.
Qed.

Lemma shift_cols_zero_fill arr row_arr n m f0 f sc stride :
  is_grid arr n m f0 -> is_grid row_arr n m f -> (stride <= 0)%Z ->
  exists out,
    shift_cols arr row_arr sc stride = Ok out /\
    is_grid out n m
      (fun i j =>
         if decide (sc <= Z.of_nat j < Z.of_nat m + sc)%Z
         then f i (Z.to_nat (Z.of_nat j - sc)) else 0%Z).
Proof.
  intros Harr0 Harr Hs. unfold shift_cols.
  pose proof (is_grid_zeros_like _ _ _ _ Harr0) as Hz.
  destruct (Z.ltb_spec 0 stride); [lia|].
  destruct (Z.ltb_spec 0 sc); [|destruct (Z.ltb_spec sc 0)].
  - pose proof (is_grid_getitem _ _ _ _ sl_all (sl_to (- sc)) Harr) as Hv.
    eapply (is_grid_reshape _ _ _ (slice_len n sl_all) (slice_len m (sl_from sc)))
      in Hv; [|slice_arith..].
    destruct (is_grid_setitem _ _ _ _ _ _ _ _ Hz Hv) as (out & Hout & Hg).
    exists out. split; [exact Hout|].
    eapply is_grid_proper; [exact Hg|]. intros i j Hi Hj. grid_arith.
  - pose proof (is_grid_getitem _ _ _ _ sl_all (sl_from (- sc)) Harr) as Hv.
    eapply (is_grid_reshape _ _ _ (slice_len n sl_all) (slice_len m (sl_to sc)))
      in Hv; [|slice_arith..].
    destruct (is_grid_setitem _ _ _ _ _ _ _ _ Hz Hv) as (out & Hout & Hg).
    exists out. split; [exact Hout|].
    eapply is_grid_proper; [exact Hg|]. intros i j Hi Hj. grid_arith.
  - pose proof (is_grid_getitem _ _ _ _ sl_all sl_all Harr) as Hv.
    destruct (is_grid_setitem _ _ _ _ _ _ _ _ Hz Hv) as (out & Hout & Hg).
    exists out. split; [exact Hout|].
    eapply is_grid_proper; [exact Hg|]. intros i j Hi Hj. grid_arith.
Qed.

Lemma shift_2d_zero_fill arr n m f sr sc stride :
  is_grid arr n m f -> (stride <= 0)%Z ->
  exists out,
    shift_2d arr (sr, sc) stride = Ok out /\
    is_grid out n m
      (fun i j =>
         if decide ((sr <= Z.of_nat i < Z.of_nat n + sr)%Z /\
                    (sc <= Z.of_nat j < Z.of_nat m + sc)%Z)
         then f (Z.to_nat (Z.of_nat i - sr)) (Z.to_nat (Z.of_nat j - sc))
         else 0%Z).
Proof.
  intros Harr Hs. unfold shift_2d.
  destruct (shift_rows_zero_fill _ _ _ _ sr _ Harr Hs) as (ra & -> & Hra).
  cbn [bind].
  destruct (shift_cols_zero_fill _ _ _ _ _ _ sc _ Harr Hra Hs)
    as (out & -> & Hout).
  exists out. split; [reflexivity|].
  eapply is_grid_proper; [exact Hout|]. intros i j Hi Hj.
  cbn beta. repeat case_decide; try lia; reflexivity.
Qed.

(** Closed forms of the slices used by the source. *)

Lemma slice_to_lo n z : slice_lo n (sl_to z) = 0.
Proof. reflexivity. Qed.

Lemma slice_to_len_pos n z :
  (0 <= z)%Z -> slice_len n (sl_to z) = Nat.min (Z.to_nat z) n.
Proof. intros. slice_arith. Qed.

Lemma slice_to_len_neg n z :
  (z < 0)%Z -> slice_len n (sl_to z) = n - Z.to_nat (- z).
Proof. intros. slice_arith. Qed.

Lemma slice_from_lo_pos n z :
  (0 <= z)%Z -> slice_lo n (sl_from z) = Nat.min (Z.to_nat z) n.
Proof. intros. slice_arith. Qed.

Lemma slice_from_len_pos n z :
  (0 <= z)%Z -> slice_len n (sl_from z) = n - Z.to_nat z.
Proof. intros. slice_arith. Qed.

Lemma slice_from_lo_neg n z :
  (z < 0)%Z -> slice_lo n (sl_from z) = n - Z.to_nat (- z).
Proof. intros. slice_arith. Qed.

Lemma slice_from_len_neg n z :
  (z < 0)%Z -> slice_len n (sl_from z) = Nat.min (Z.to_nat (- z)) n.
Proof. intros. slice_arith. Qed.

Ltac slice_norm :=
  repeat first
    [ rewrite slice_all_lo in *
    | rewrite slice_all_len in *
    | rewrite slice_to_lo in *
    | rewrite slice_to_len_pos in * by lia
    | rewrite slice_to_len_neg in * by lia
    | rewrite slice_from_lo_pos in * by lia
    | rewrite slice_from_len_pos in * by lia
    | rewrite slice_from_lo_neg in * by lia
    | rewrite slice_from_len_neg in * by lia ].

(** ** [shift_2d] with strided replication ([stride > 0]) *)

Lemma src_index_lt n shift stride i :
  (0 < stride)%Z -> (Z.abs shift <= Z.of_nat n)%Z -> i < n ->
  src_index n shift stride i < n.
Proof.
  intros Hs Hr Hi. unfold src_index.
  assert (Hk : 0 < Nat.min (Z.to_nat stride) n) by lia.
  set (k := Nat.min (Z.to_nat stride) n) in *.
  destruct (Z.ltb_spec 0 shift); [|destruct (Z.ltb_spec shift 0)].
  - case_decide; [|lia].
    pose proof (Nat.mod_upper_bound
      (Z.to_nat (tile_count (Z.abs shift) shift stride) * k
       - Z.to_nat (Z.abs shift) + i) k). lia.
  - case_decide; [lia|].
    pose proof (Nat.mod_upper_bound (i - (n - Z.to_nat (Z.abs shift))) k). lia.
  - trivial.
Qed.

Lemma shift_rows_strided arr n m f sr stride :
  is_grid arr n m f -> (0 < stride)%Z -> (Z.abs sr <= Z.of_nat n)%Z ->
  exists out,
    shift_rows arr sr stride = Ok out /\
    is_grid out n m (fun i j => f (src_index n sr stride i) j).
Proof.
  intros Harr Hs Hr. unfold shift_rows, src_index.
  pose proof (tile_cover sr stride n Hs Hr) as Hcov.
  destruct (tile_count_abs sr stride Hs) as (Hq0 & _ & _).
  set (q := tile_count (Z.abs sr) sr stride) in *.
  set (k := Nat.min (Z.to_nat stride) n) in *.
  set (s := Z.to_nat (Z.abs sr)) in *.
  destruct (Z.ltb_spec 0 stride); [|lia].
  rewrite !tile_ok by lia.
  destruct (Z.ltb_spec 0 sr); [|destruct (Z.ltb_spec sr 0)]; cbn [bind].
  - pose proof (is_grid_getitem _ _ _ _ (sl_to stride) sl_all Harr) as Hblk.
    pose proof (is_grid_tile_nat _ _ _ _ (Z.to_nat q) (Z.to_nat 1) Hblk) as Ht.
    pose proof (is_grid_getitem _ _ _ _ (sl_from (- sr)) sl_all Ht) as Hsa.
    pose proof (is_grid_getitem _ _ _ _ (sl_to (- sr)) sl_all Harr) as Hrest.
    slice_norm. fold k in Ht, Hsa.
    replace (Z.to_nat (- - sr)) with s in * by lia.
    eapply (is_grid_reshape _ _ _ s m) in Hsa; [|lia..].
    destruct (is_grid_vstack _ _ _ _ _ _ _ Hsa Hrest) as (out & Hout & Hg).
    exists out. split; [exact Hout|].
    eapply is_grid_reshape; [|shelve..].
    eapply is_grid_proper; [exact Hg|]. intros i j Hi Hj. cbn beta.
    rewrite (Nat.mod_small (0 + j)) by lia.
    case_decide; f_equal; lia.
    Unshelve. all: lia.
  - pose proof (is_grid_getitem _ _ _ _ (sl_from (- stride)) sl_all Harr) as Hblk.
    pose proof (is_grid_tile_nat _ _ _ _ (Z.to_nat q) (Z.to_nat 1) Hblk) as Ht.
    pose proof (is_grid_getitem _ _ _ _ (sl_to (- sr)) sl_all Ht) as Hsa.
    pose proof (is_grid_getitem _ _ _ _ (sl_from (- sr)) sl_all Harr) as Hrest.
    slice_norm.
    replace (Z.to_nat (- - stride)) with (Z.to_nat stride) in * by lia.
    fold k in Ht, Hsa.
    replace (Z.to_nat (- sr)) with s in * by lia.
    eapply (is_grid_reshape _ _ _ s m) in Hsa; [|lia..].
    destruct (is_grid_vstack _ _ _ _ _ _ _ Hrest Hsa) as (out & Hout & Hg).
    exists out. split; [exact Hout|].
    eapply is_grid_reshape; [|shelve..].
    eapply is_grid_proper; [exact Hg|]. intros i j Hi Hj. cbn beta.
    rewrite (Nat.mod_small (0 + j)) by lia.
    case_decide; f_equal; try lia.
    replace (0 + (i - (n - s))) with (i - (n - s)) by lia. unfold k. lia.
    Unshelve. all: lia.
  - pose proof (is_grid_zeros_like _ _ _ _ Harr) as Hz.
    pose proof (is_grid_getitem _ _ _ _ sl_all sl_all Harr) as Hv.
    destruct (is_grid_setitem _ _ _ _ _ _ _ _ Hz Hv) as (out & Hout & Hg).
    exists out. split; [exact Hout|].
    eapply is_grid_proper; [exact Hg|]. intros i j Hi Hj. grid_arith.
Qed.

Lemma shift_cols_strided arr row_arr n m f0 f sc stride :
  is_grid arr n m f0 -> is_grid row_arr n m f ->
  (0 < stride)%Z -> (Z.abs sc <= Z.of_nat m)%Z ->
  exists out,
    shift_cols arr row_arr sc stride = Ok out /\
    is_grid out n m (fun i j => f i (src_index m sc stride j)).
Proof.
  intros Harr0 Harr Hs Hr. unfold shift_cols, src_index.
  pose proof (tile_cover sc stride m Hs Hr) as Hcov.
  destruct (tile_count_abs sc stride Hs) as (Hq0 & _ & _).
  set (q := tile_count (Z.abs sc) sc stride) in *.
  set (k := Nat.min (Z.to_nat stride) m) in *.
  set (s := Z.to_nat (Z.abs sc)) in *.
  destruct (Z.ltb_spec 0 stride); [|lia].
  rewrite !tile_ok by lia.
  destruct (Z.ltb_spec 0 sc); [|destruct (Z.ltb_spec sc 0)]; cbn [bind].
  - pose proof (is_grid_getitem _ _ _ _ sl_all (sl_to stride) Harr) as Hblk.
    pose proof (is_grid_tile_nat _ _ _ _ (Z.to_nat 1) (Z.to_nat q) Hblk) as Ht.
    pose proof (is_grid_getitem _ _ _ _ sl_all (sl_from (- sc)) Ht) as Hsa.
    pose proof (is_grid_getitem _ _ _ _ sl_all (sl_to (- sc)) Harr) as Hrest.
    slice_norm. fold k in Ht, Hsa.
    replace (Z.to_nat (- - sc)) with s in * by lia.
    eapply (is_grid_reshape _ _ _ n s) in Hsa; [|lia..].
    destruct (is_grid_hstack _ _ _ _ _ _ _ Hsa Hrest) as (out & Hout & Hg).
    exists out. split; [exact Hout|].
    eapply is_grid_reshape; [|shelve..].
    eapply is_grid_proper; [exact Hg|]. intros i j Hi Hj. cbn beta.
    rewrite (Nat.mod_small (0 + i)) by lia.
    replace (k * Z.to_nat q) with (Z.to_nat q * k) by lia.
    case_decide; f_equal; lia.
    Unshelve. all: lia.
  - pose proof (is_grid_getitem _ _ _ _ sl_all (sl_from (- stride)) Harr) as Hblk.
    pose proof (is_grid_tile_nat _ _ _ _ (Z.to_nat 1) (Z.to_nat q) Hblk) as Ht.
    pose proof (is_grid_getitem _ _ _ _ sl_all (sl_to (- sc)) Ht) as Hsa.
    pose proof (is_grid_getitem _ _ _ _ sl_all (sl_from (- sc)) Harr) as Hrest.
    slice_norm.
    replace (Z.to_nat (- - stride)) with (Z.to_nat stride) in * by lia.
    fold k in Ht, Hsa.
    replace (Z.to_nat (- sc)) with s in * by lia.
    eapply (is_grid_reshape _ _ _ n s) in Hsa; [|lia..].
    destruct (is_grid_hstack _ _ _ _ _ _ _ Hrest Hsa) as (out & Hout & Hg).
    exists out. split; [exact Hout|].
    eapply is_grid_reshape; [|shelve..].
    eapply is_grid_proper; [exact Hg|]. intros i j Hi Hj. cbn beta.
    rewrite (Nat.mod_small (0 + i)) by lia.
    case_decide; f_equal; try lia.
    replace (0 + (j - (m - s))) with (j - (m - s)) by lia. unfold k. lia.
    Unshelve. all: lia.
  - pose proof (is_grid_zeros_like _ _ _ _ Harr0) as Hz.
    pose proof (is_grid_getitem _ _ _ _ sl_all sl_all Harr) as Hv.
    destruct (is_grid_setitem _ _ _ _ _ _ _ _ Hz Hv) as (out & Hout & Hg).
    exists out. split; [exact Hout|].
    eapply is_grid_proper; [exact Hg|]. intros i j Hi Hj. grid_arith.
Qed.

Lemma shift_2d_strided arr n m f sr sc stride :
  is_grid arr n m f -> (0 < stride)%Z ->
  (Z.abs sr <= Z.of_nat n)%Z -> (Z.abs sc <= Z.of_nat m)%Z ->
  exists out,
    shift_2d arr (sr, sc) stride = Ok out /\
    is_grid out n m
      (fun i j => f (src_index n sr stride i) (src_index m sc stride j)).
Proof.
  intros Harr Hs Hr Hc. unfold shift_2d.
  destruct (shift_rows_strided _ _ _ _ sr _ Harr Hs Hr) as (ra & -> & Hra).
  cbn [bind].
  exact (shift_cols_strided _ _ _ _ _ _ sc _ Harr Hra Hs Hc).
Qed.

(** ** Results on [shift_2d] *)

Lemma src_index_zero n stride i : src_index n 0 stride i = i.
Proof. reflexivity. Qed.

(** A shift within range keeps the shape, whatever the stride. *)
Lemma shift_2d_shape arr sr sc stride :
  wf arr ->
  (Z.abs sr <= Z.of_nat (nrows arr))%Z -> (Z.abs sc <= Z.of_nat (ncols arr))%Z ->
  exists out,
    shift_2d arr (sr, sc) stride = Ok out /\
    nrows out = nrows arr /\ ncols out = ncols arr /\ wf out.
Proof.
  intros Hwf Hr Hc. pose proof (is_grid_self _ Hwf) as Harr.
  destruct (Z.lt_ge_cases 0 stride) as [Hs|Hs].
  - destruct (shift_2d_strided _ _ _ _ sr sc _ Harr Hs Hr Hc)
      as (out & Hout & Hn & Hm & Hw & _).
    by exists out.
  - destruct (shift_2d_zero_fill _ _ _ _ sr sc _ Harr Hs)
      as (out & Hout & Hn & Hm & Hw & _).
    by exists out.
Qed.

(** C6: shifting by (0, 0) returns the input grid, for every stride. *)
Theorem shift_2d_identity (arr : ndarray) (stride : Z) :
  wf arr -> shift_2d arr (0%Z, 0%Z) stride = Ok arr.
Proof.
  intros Hwf. pose proof (is_grid_self _ Hwf) as Harr.
  destruct (Z.lt_ge_cases 0 stride) as [Hs|Hs].
  - destruct (shift_2d_strided _ _ _ _ 0%Z 0%Z _ Harr Hs ltac:(lia) ltac:(lia))
      as (out & -> & Hout).
    f_equal. symmetry. eapply is_grid_ext; [exact Harr|exact Hout|].
    intros i j _ _. cbn beta. by rewrite !src_index_zero.
  - destruct (shift_2d_zero_fill _ _ _ _ 0%Z 0%Z _ Harr Hs) as (out & -> & Hout).
    f_equal. symmetry. eapply is_grid_ext; [exact Harr|exact Hout|].
    intros i j Hi Hj. cbn beta. rewrite decide_True by lia.
    f_equal; lia.
Qed.

Lemma shift_2d_identity_witness :
  wf grid6 /\ shift_2d grid6 (0%Z, 0%Z) 2%Z = Ok grid6.
Proof.
  assert (Hwf : wf grid6) by (unfold wf; repeat constructor).
  split; [exact Hwf|]. exact (shift_2d_identity grid6 2%Z Hwf).
Defined.

(** C8: for a shift within range ([|shift_row| < rows], [|shift_col| < cols])
    and every stride, [shift_2d] returns a rectangular grid of exactly the
    input's [rows x cols]. *)
Theorem shift_2d_preserves_size (arr : ndarray) (shift_row shift_col stride : Z) :
  wf arr ->
  (Z.abs shift_row < Z.of_nat (nrows arr))%Z ->
  (Z.abs shift_col < Z.of_nat (ncols arr))%Z ->
  exists out,
    shift_2d arr (shift_row, shift_col) stride = Ok out /\
    nrows out = nrows arr /\ ncols out = ncols arr /\ wf out.
Proof.
  intros Hwf Hr Hc. apply shift_2d_shape; trivial; lia.
Qed.

Lemma shift_2d_preserves_size_witness :
  wf grid6 /\
  (Z.abs (-2) < Z.of_nat (nrows grid6))%Z /\
  (Z.abs 3 < Z.of_nat (ncols grid6))%Z /\
  exists out,
    shift_2d grid6 ((-2)%Z, 3%Z) 2%Z = Ok out /\
    nrows out = nrows grid6 /\ ncols out = ncols grid6 /\ wf out.
Proof.
  assert (Hwf : wf grid6) by (unfold wf; repeat constructor).
  assert (Hr : (Z.abs (-2) < Z.of_nat (nrows grid6))%Z) by (vm_compute; reflexivity).
  assert (Hc : (Z.abs 3 < Z.of_nat (ncols grid6))%Z) by (vm_compute; reflexivity).
  split; [exact Hwf|]. split; [exact Hr|]. split; [exact Hc|].
  exact (shift_2d_preserves_size grid6 (-2)%Z 3%Z 2%Z Hwf Hr Hc).
Defined.

(** C9: on the 6 x 6 grid of 1..36, [shift_2d(grid, (1, 0), stride=1)] has
    the original row 0 as its row 0 (the replicated edge row) and the
    original rows 0..4 as its rows 1..5. *)
Theorem shift_2d_down_one_scenario :
  exists out,
    shift_2d grid6 (1%Z, 0%Z) 1%Z = Ok out /\
    nrows out = 6 /\ ncols out = 6 /\
    rows out !! 0 = rows grid6 !! 0 /\
    forall i, 1 <= i <= 5 -> rows out !! i = rows grid6 !! (i - 1).
Proof.
  eexists. split; [vm_compute; reflexivity|].
  repeat split.
  intros i Hi.
  destruct i as [|[|[|[|[|[|i]]]]]]; try lia; reflexivity.
Qed.

(** C2 (as amended): [shift_2d] has no range check.  With zero fill
    ([stride <= 0], the default being 0) a shift with
    [|shift_row| >= rows] or [|shift_col| >= cols] raises nothing and
    returns the all-zero grid of the input's shape. *)
Theorem shift_2d_out_of_range_zero_fill
    (arr : ndarray) (shift_row shift_col stride : Z) :
  wf arr -> (stride <= 0)%Z ->
  (Z.of_nat (nrows arr) <= Z.abs shift_row)%Z \/
  (Z.of_nat (ncols arr) <= Z.abs shift_col)%Z ->
  shift_2d arr (shift_row, shift_col) stride
  = Ok (zeros (nrows arr) (ncols arr)).
Proof.
  intros Hwf Hs Hout. pose proof (is_grid_self _ Hwf) as Harr.
  destruct (shift_2d_zero_fill _ _ _ _ shift_row shift_col _ Harr Hs)
    as (out & -> & Hg).
  f_equal. eapply is_grid_ext; [exact Hg|apply is_grid_zeros|].
  intros i j Hi Hj. cbn beta. rewrite decide_False by lia. reflexivity.
Qed.

Lemma shift_2d_out_of_range_zero_fill_witness :
  wf grid6 /\ (0 <= 0)%Z /\
  ((Z.of_nat (nrows grid6) <= Z.abs 6)%Z \/
   (Z.of_nat (ncols grid6) <= Z.abs 0)%Z) /\
  shift_2d grid6 (6%Z, 0%Z) 0%Z = Ok (zeros (nrows grid6) (ncols grid6)).
Proof.
  assert (Hwf : wf grid6) by (unfold wf; repeat constructor).
  assert (Hs : (0 <= 0)%Z) by lia.
  assert (Hout : (Z.of_nat (nrows grid6) <= Z.abs 6)%Z \/
                 (Z.of_nat (ncols grid6) <= Z.abs 0)%Z)
    by (left; vm_compute; discriminate).
  split; [exact Hwf|]. split; [exact Hs|]. split; [exact Hout|].
  exact (shift_2d_out_of_range_zero_fill grid6 6%Z 0%Z 0%Z Hwf Hs Hout).
Defined.

(** C2 as stated fails: [shift_row = 6] on the 6-row grid raises nothing,
    with zero fill and with [stride = 1] alike. *)
Lemma shift_2d_out_of_range_not_raised :
  nrows grid6 = 6 /\
  raises (shift_2d grid6 (6%Z, 0%Z) 0%Z) = false /\
  shift_2d grid6 (6%Z, 0%Z) 0%Z = Ok (zeros 6 6) /\
  shift_2d grid6 (6%Z, 0%Z) 1%Z
  = Ok (NdArray 6 (replicate 6 [1; 2; 3; 4; 5; 6]%Z)).
Proof. vm_compute. repeat split. Qed.

(** ** [add_border_2d] *)

Lemma np_zeros_ok n m :
  (0 <= n)%Z -> (0 <= m)%Z -> np_zeros n m = Ok (zeros (Z.to_nat n) (Z.to_nat m)).
Proof.
  intros Hn Hm. unfold np_zeros.
  destruct (Z.ltb_spec n 0); [lia|]. destruct (Z.ltb_spec m 0); [lia|].
  reflexivity.
Qed.

(** After lines 119-124, for a positive border width: zeros around [arr]. *)
Lemma bordered_zeros_grid arr n m f bw :
  is_grid arr n m f -> (0 < bw)%Z ->
  exists out,
    bordered_zeros arr bw = Ok out /\
    is_grid out (n + 2 * Z.to_nat bw) (m + 2 * Z.to_nat bw)
      (fun i j =>
         if decide ((Z.to_nat bw <= i < Z.to_nat bw + n) /\
                    (Z.to_nat bw <= j < Z.to_nat bw + m))
         then f (i - Z.to_nat bw) (j - Z.to_nat bw) else 0%Z).
Proof.
  intros Harr Hb. unfold bordered_zeros.
  pose proof Harr as (Hn & Hm & _). rewrite Hn, Hm.
  rewrite np_zeros_ok by lia. cbn [bind].
  set (b := Z.to_nat bw).
  replace (Z.to_nat (Z.of_nat n + bw * 2)) with (n + 2 * b) by lia.
  replace (Z.to_nat (Z.of_nat m + bw * 2)) with (m + 2 * b) by lia.
  pose proof (is_grid_zeros (n + 2 * b) (m + 2 * b)) as Hz.
  assert (Hlo : forall k, slice_lo (k + 2 * b) (sl bw (- bw)) = b)
    by (intros; slice_arith).
  assert (Hlen : forall k, slice_len (k + 2 * b) (sl bw (- bw)) = k)
    by (intros; slice_arith).
  eapply (is_grid_reshape _ _ _ (slice_len (n + 2 * b) (sl bw (- bw)))
            (slice_len (m + 2 * b) (sl bw (- bw)))) in Harr;
    [|by rewrite Hlen..].
  destruct (is_grid_setitem _ _ _ _ _ _ _ _ Hz Harr) as (out & Hout & Hg).
  exists out. split; [exact Hout|].
  eapply is_grid_proper; [exact Hg|]. intros i j Hi Hj. cbn beta.
  rewrite !Hlo, !Hlen. reflexivity.
Qed.

Section Fills.
Variables (bw stride : Z).
Hypothesis (Hbw : (0 < bw)%Z) (Hstride : (0 < stride)%Z).

Let b := Z.to_nat bw.
Let q := Z.to_nat (tile_count bw bw stride).

Lemma block_cover n : b <= q * block_len bw stride n.
Proof using Hbw Hstride.
  pose proof (tile_cover bw stride (n + b) Hstride ltac:(lia)) as H.
  replace (Z.abs bw) with bw in H by lia. exact H.
Qed.

Lemma quot_nonneg : (0 <= tile_count bw bw stride)%Z.
Proof using Hbw Hstride.
  destruct (tile_count_abs bw stride Hstride) as (H & _).
  by replace (Z.abs bw) with bw in H by lia.
Qed.

Lemma fill_top_grid a n M f :
  is_grid a (n + 2 * b) M f ->
  exists out,
    fill_top a bw stride (tile_count bw bw stride) = Ok out /\
    is_grid out (n + 2 * b) M
      (fun i j => if decide (i < b) then f (b + i mod block_len bw stride n) j
                  else f i j).
Proof using Hbw Hstride.
  intros Ha. unfold fill_top. pose proof (block_cover n) as Hcov.
  pose proof quot_nonneg as Hq.
  rewrite tile_ok by lia. cbn [bind]. fold q.
  pose proof (is_grid_getitem _ _ _ _ (sl bw (bw + stride)) sl_all Ha) as Hblk.
  assert (Hlo : slice_lo (n + 2 * b) (sl bw (bw + stride)) = b)
    by (unfold b; slice_arith).
  assert (Hlen : slice_len (n + 2 * b) (sl bw (bw + stride)) = block_len bw stride n)
    by (unfold block_len, b; slice_arith).
  rewrite Hlo, Hlen in Hblk.
  pose proof (is_grid_tile_nat _ _ _ _ q (Z.to_nat 1) Hblk) as Ht.
  pose proof (is_grid_getitem _ _ _ _ (sl_to bw) sl_all Ht) as Hv.
  slice_norm. fold b in Hv.
  eapply (is_grid_reshape _ _ _ (slice_len (n + 2 * b) (sl_to bw))
            (slice_len M sl_all)) in Hv;
    [|slice_norm; fold b; lia..].
  destruct (is_grid_setitem _ _ _ _ _ _ _ _ Ha Hv) as (out & Hout & Hg).
  exists out. split; [exact Hout|].
  eapply is_grid_proper; [exact Hg|]. intros i j Hi Hj. cbn beta.
  slice_norm. fold b. rewrite (Nat.mod_small (0 + (j - 0))) by lia.
  repeat case_decide; try lia; f_equal; try lia.
  replace (0 + (i - 0)) with i by lia. lia.
Qed.

Lemma fill_bottom_grid a n M f :
  is_grid a (n + 2 * b) M f ->
  exists out,
    fill_bottom a bw stride (tile_count bw bw stride) = Ok out /\
    is_grid out (n + 2 * b) M
      (fun i j =>
         if decide (n + b <= i)
         then f (n + b - block_len bw stride n + (i - (n + b)) mod block_len bw stride n) j
         else f i j).
Proof using Hbw Hstride.
  intros Ha. unfold fill_bottom. pose proof (block_cover n) as Hcov.
  pose proof quot_nonneg as Hq.
  rewrite tile_ok by lia. cbn [bind]. fold q.
  pose proof (is_grid_getitem _ _ _ _
                (sl (- (bw + stride)) (- bw)) sl_all Ha) as Hblk.
  assert (Hlo : slice_lo (n + 2 * b) (sl (- (bw + stride)) (- bw))
                = n + b - block_len bw stride n)
    by (unfold block_len, b; slice_arith).
  assert (Hlen : slice_len (n + 2 * b) (sl (- (bw + stride)) (- bw))
                 = block_len bw stride n)
    by (unfold block_len, b; slice_arith).
  rewrite Hlo, Hlen in Hblk.
  pose proof (is_grid_tile_nat _ _ _ _ q (Z.to_nat 1) Hblk) as Ht.
  pose proof (is_grid_getitem _ _ _ _ (sl_to bw) sl_all Ht) as Hv.
  slice_norm. fold b in Hv.
  eapply (is_grid_reshape _ _ _ (slice_len (n + 2 * b) (sl_from (- bw)))
            (slice_len M sl_all)) in Hv;
    [|slice_norm; replace (Z.to_nat (- - bw)) with b by lia; lia..].
  destruct (is_grid_setitem _ _ _ _ _ _ _ _ Ha Hv) as (out & Hout & Hg).
  exists out. split; [exact Hout|].
  eapply is_grid_proper; [exact Hg|]. intros i j Hi Hj. cbn beta.
  slice_norm. replace (Z.to_nat (- - bw)) with b by lia.
  rewrite (Nat.mod_small (0 + (j - 0))) by lia.
  replace (n + 2 * b - b) with (n + b) by lia.
  repeat case_decide; try lia; f_equal; lia.
Qed.

Lemma fill_left_grid a N m f :
  is_grid a N (m + 2 * b) f ->
  exists out,
    fill_left a bw stride (tile_count bw bw stride) = Ok out /\
    is_grid out N (m + 2 * b)
      (fun i j => if decide (j < b) then f i (b + j mod block_len bw stride m)
                  else f i j).
Proof using Hbw Hstride.
  intros Ha. unfold fill_left. pose proof (block_cover m) as Hcov.
  pose proof quot_nonneg as Hq.
  rewrite tile_ok by lia. cbn [bind]. fold q.
  pose proof (is_grid_getitem _ _ _ _ sl_all (sl bw (bw + stride)) Ha) as Hblk.
  assert (Hlo : slice_lo (m + 2 * b) (sl bw (bw + stride)) = b)
    by (unfold b; slice_arith).
  assert (Hlen : slice_len (m + 2 * b) (sl bw (bw + stride)) = block_len bw stride m)
    by (unfold block_len, b; slice_arith).
  rewrite Hlo, Hlen in Hblk.
  pose proof (is_grid_tile_nat _ _ _ _ (Z.to_nat 1) q Hblk) as Ht.
  pose proof (is_grid_getitem _ _ _ _ sl_all (sl_to bw) Ht) as Hv.
  slice_norm. fold b in Hv.
  eapply (is_grid_reshape _ _ _ (slice_len N sl_all)
            (slice_len (m + 2 * b) (sl_to bw))) in Hv;
    [|slice_norm; fold b; lia..].
  destruct (is_grid_setitem _ _ _ _ _ _ _ _ Ha Hv) as (out & Hout & Hg).
  exists out. split; [exact Hout|].
  eapply is_grid_proper; [exact Hg|]. intros i j Hi Hj. cbn beta.
  slice_norm. fold b. rewrite (Nat.mod_small (0 + (i - 0))) by lia.
  repeat case_decide; try lia; f_equal; try lia.
  replace (0 + (j - 0)) with j by lia. lia.
Qed.

Lemma fill_right_grid a N m f :
  is_grid a N (m + 2 * b) f ->
  exists out,
    fill_right a bw stride (tile_count bw bw stride) = Ok out /\
    is_grid out N (m + 2 * b)
      (fun i j =>
         if decide (m + b <= j)
         then f i (m + b - block_len bw stride m + (j - (m + b)) mod block_len bw stride m)
         else f i j).
Proof using Hbw Hstride.
  intros Ha. unfold fill_right. pose proof (block_cover m) as Hcov.
  pose proof quot_nonneg as Hq.
  rewrite tile_ok by lia. cbn [bind]. fold q.
  pose proof (is_grid_getitem _ _ _ _ sl_all
                (sl (- (bw + stride)) (- bw)) Ha) as Hblk.
  assert (Hlo : slice_lo (m + 2 * b) (sl (- (bw + stride)) (- bw))
                = m + b - block_len bw stride m)
    by (unfold block_len, b; slice_arith).
  assert (Hlen : slice_len (m + 2 * b) (sl (- (bw + stride)) (- bw))
                 = block_len bw stride m)
    by (unfold block_len, b; slice_arith).
  rewrite Hlo, Hlen in Hblk.
  pose proof (is_grid_tile_nat _ _ _ _ (Z.to_nat 1) q Hblk) as Ht.
  pose proof (is_grid_getitem _ _ _ _ sl_all (sl_to bw) Ht) as Hv.
  slice_norm. fold b in Hv.
  eapply (is_grid_reshape _ _ _ (slice_len N sl_all)
            (slice_len (m + 2 * b) (sl_from (- bw)))) in Hv;
    [|slice_norm; replace (Z.to_nat (- - bw)) with b by lia; lia..].
  destruct (is_grid_setitem _ _ _ _ _ _ _ _ Ha Hv) as (out & Hout & Hg).
  exists out. split; [exact Hout|].
  eapply is_grid_proper; [exact Hg|]. intros i j Hi Hj. cbn beta.
  slice_norm. replace (Z.to_nat (- - bw)) with b by lia.
  rewrite (Nat.mod_small (0 + (i - 0))) by lia.
  replace (m + 2 * b - b) with (m + b) by lia.
  repeat case_decide; try lia; f_equal; lia.
Qed.
End Fills.

Lemma add_border_2d_zero_border arr n m f bw stride :
  is_grid arr n m f -> (0 < bw)%Z -> (stride <= 0)%Z ->
  exists out,
    add_border_2d arr bw stride = Ok out /\
    is_grid out (n + 2 * Z.to_nat bw) (m + 2 * Z.to_nat bw)
      (center_fn (Z.to_nat bw) n m f).
Proof.
  intros Harr Hb Hs. unfold add_border_2d.
  destruct (bordered_zeros_grid _ _ _ _ _ Harr Hb) as (z & -> & Hz).
  cbn [bind]. destruct (Z.ltb_spec 0 stride); [lia|].
  by exists z.
Qed.

Lemma add_border_2d_strided arr n m f bw stride :
  is_grid arr n m f -> (0 < bw)%Z -> (0 < stride)%Z ->
  exists out,
    add_border_2d arr bw stride = Ok out /\
    is_grid out (n + 2 * Z.to_nat bw) (m + 2 * Z.to_nat bw)
      (border_fn (Z.to_nat bw) (block_len bw stride n) (block_len bw stride m)
         n m f).
Proof.
  intros Harr Hb Hs. unfold add_border_2d.
  destruct (bordered_zeros_grid _ _ _ _ _ Harr Hb) as (z & -> & Hz).
  cbn [bind]. destruct (Z.ltb_spec 0 stride); [|lia].
  destruct (fill_top_grid bw stride Hb Hs _ _ _ _ Hz) as (a1 & -> & H1).
  cbn [bind].
  destruct (fill_bottom_grid bw stride Hb Hs _ _ _ _ H1) as (a2 & -> & H2).
  cbn [bind].
  destruct (fill_left_grid bw stride Hb Hs _ _ _ _ H2) as (a3 & -> & H3).
  cbn [bind].
  destruct (fill_right_grid bw stride Hb Hs _ _ _ _ H3) as (a4 & -> & H4).
  by exists a4.
Qed.

(** The fills leave the centre alone. *)
Lemma border_fn_center b kr kc n m f i j :
  b <= i < b + n -> b <= j < b + m ->
  border_fn b kr kc n m f i j = f (i - b) (j - b).
Proof.
  intros Hi Hj. unfold border_fn, right_fn, left_fn, bottom_fn, top_fn, center_fn.
  repeat case_decide; try lia; reflexivity.
Qed.

(** For a positive border width the output has the enlarged shape and its
    centre is the input, whatever the stride. *)
Lemma add_border_2d_positive_width arr bw stride :
  wf arr -> (0 < bw)%Z ->
  exists out,
    add_border_2d arr bw stride = Ok out /\
    nrows out = nrows arr + 2 * Z.to_nat bw /\
    ncols out = ncols arr + 2 * Z.to_nat bw /\
    wf out /\
    getitem out (sl bw (- bw)) (sl bw (- bw)) = arr.
Proof.
  intros Hwf Hb. pose proof (is_grid_self _ Hwf) as Harr.
  set (n := nrows arr) in *. set (m := ncols arr) in *. set (b := Z.to_nat bw).
  assert (Hlo : forall k, slice_lo (k + 2 * b) (sl bw (- bw)) = b)
    by (intros; unfold b; slice_arith).
  assert (Hlen : forall k, slice_len (k + 2 * b) (sl bw (- bw)) = k)
    by (intros; unfold b; slice_arith).
  assert (Hkey : exists out g,
    add_border_2d arr bw stride = Ok out /\
    is_grid out (n + 2 * b) (m + 2 * b) g /\
    forall i j, b <= i < b + n -> b <= j < b + m ->
      g i j = cell arr (i - b) (j - b)).
  { destruct (Z.lt_ge_cases 0 stride) as [Hs|Hs].
    - destruct (add_border_2d_strided _ _ _ _ _ _ Harr Hb Hs) as (out & Ho & Hg).
      exists out, (border_fn b (block_len bw stride n) (block_len bw stride m)
                     n m (cell arr)).
      repeat split; trivial; try apply Hg. intros. by apply border_fn_center.
    - destruct (add_border_2d_zero_border _ _ _ _ _ _ Harr Hb Hs)
        as (out & Ho & Hg).
      exists out, (center_fn b n m (cell arr)).
      repeat split; trivial; try apply Hg. intros i j Hi Hj.
      unfold center_fn. by rewrite decide_True. }
  destruct Hkey as (out & g & Ho & Hg & Hc).
  exists out. split; [exact Ho|]. pose proof Hg as (Hn & Hm & Hw & _).
  repeat split; trivial.
  pose proof (is_grid_getitem _ _ _ _ (sl bw (- bw)) (sl bw (- bw)) Hg) as Hsub.
  rewrite !Hlo, !Hlen in Hsub.
  eapply is_grid_ext; [exact Hsub|exact Harr|].
  intros i j Hi Hj. cbn beta. rewrite Hc by lia. f_equal; lia.
Qed.

Lemma border_src_lt b st n i :
  0 < st <= n -> i < n + 2 * b -> border_src b st n i < n.
Proof.
  intros Hst Hi. unfold border_src.
  pose proof (Nat.mod_upper_bound i st ltac:(lia)).
  pose proof (Nat.mod_upper_bound (i - (n + b)) st ltac:(lia)).
  repeat case_decide; lia.
Qed.

Lemma border_fn_valid b st n m f i j :
  0 < st <= n -> st <= m -> i < n + 2 * b -> j < m + 2 * b ->
  border_fn b st st n m f i j = f (border_src b st n i) (border_src b st m j).
Proof.
  intros Hst Hm Hi Hj.
  pose proof (Nat.mod_upper_bound i st ltac:(lia)).
  pose proof (Nat.mod_upper_bound (i - (n + b)) st ltac:(lia)).
  pose proof (Nat.mod_upper_bound j st ltac:(lia)).
  pose proof (Nat.mod_upper_bound (j - (m + b)) st ltac:(lia)).
  unfold border_fn, right_fn, left_fn, bottom_fn, top_fn, center_fn, border_src.
  repeat case_decide; try lia; f_equal; lia.
Qed.

Lemma block_len_valid bw stride n :
  (0 < stride <= Z.of_nat n)%Z -> block_len bw stride n = Z.to_nat stride.
Proof. intros. unfold block_len. lia. Qed.

Lemma add_border_2d_valid arr n m f bw stride :
  is_grid arr n m f -> (0 < bw)%Z ->
  (0 < stride <= Z.of_nat n)%Z -> (stride <= Z.of_nat m)%Z ->
  exists out,
    add_border_2d arr bw stride = Ok out /\
    is_grid out (n + 2 * Z.to_nat bw) (m + 2 * Z.to_nat bw)
      (fun i j => f (border_src (Z.to_nat bw) (Z.to_nat stride) n i)
                    (border_src (Z.to_nat bw) (Z.to_nat stride) m j)).
Proof.
  intros Harr Hb Hs Hm.
  destruct (add_border_2d_strided _ _ _ _ _ stride Harr Hb ltac:(lia))
    as (out & Ho & Hg).
  exists out. split; [exact Ho|].
  rewrite !block_len_valid in Hg by lia.
  eapply is_grid_proper; [exact Hg|]. intros i j Hi Hj.
  apply border_fn_valid; lia.
Qed.

(** Each border of an array equals the leading crop of its tiled adjacent
    block as soon as the contents repeat the block there. *)
Section Crops.
Variables (bw stride : Z).
Hypothesis (Hbw : (0 < bw)%Z) (Hstride : (0 < stride)%Z).

Let b := Z.to_nat bw.
Let q := Z.to_nat (tile_count bw bw stride).

Lemma top_is_leading_crop a n M g :
  is_grid a (n + 2 * b) M g ->
  (forall i j, i < b -> j < M ->
     g i j = g (b + i mod block_len bw stride n) j) ->
  getitem a (sl_to bw) sl_all
  = getitem (tile_nat (getitem a (sl bw (bw + stride)) sl_all) q 1)
      (sl_to bw) sl_all.
Proof using Hbw Hstride.
  intros Ha Hrep. pose proof (block_cover bw stride Hbw Hstride n) as Hcov.
  fold b q in Hcov.
  pose proof (is_grid_getitem _ _ _ _ (sl_to bw) sl_all Ha) as HL.
  pose proof (is_grid_getitem _ _ _ _ (sl bw (bw + stride)) sl_all Ha) as Hblk.
  assert (Hlo : slice_lo (n + 2 * b) (sl bw (bw + stride)) = b)
    by (unfold b; slice_arith).
  assert (Hlen : slice_len (n + 2 * b) (sl bw (bw + stride))
                 = block_len bw stride n)
    by (unfold block_len, b; slice_arith).
  rewrite Hlo, Hlen in Hblk.
  pose proof (is_grid_tile_nat _ _ _ _ q 1 Hblk) as Ht.
  pose proof (is_grid_getitem _ _ _ _ (sl_to bw) sl_all Ht) as HR.
  slice_norm. fold b in HL, HR.
  eapply (is_grid_reshape _ _ _ b M) in HL; [|lia..].
  eapply (is_grid_reshape _ _ _ b M) in HR; [|lia..].
  eapply is_grid_ext; [exact HL|exact HR|].
  intros i j Hi Hj. cbn beta. rewrite (Nat.mod_small (0 + j)) by lia.
  replace (0 + i) with i by lia. replace (0 + j) with j by lia.
  by apply Hrep.
Qed.

Lemma bottom_is_leading_crop a n M g :
  is_grid a (n + 2 * b) M g ->
  (forall i j, i < b -> j < M ->
     g (n + b + i) j
     = g (n + b - block_len bw stride n + i mod block_len bw stride n) j) ->
  getitem a (sl_from (- bw)) sl_all
  = getitem (tile_nat (getitem a (sl (- (bw + stride)) (- bw)) sl_all) q 1)
      (sl_to bw) sl_all.
Proof using Hbw Hstride.
  intros Ha Hrep. pose proof (block_cover bw stride Hbw Hstride n) as Hcov.
  fold b q in Hcov.
  pose proof (is_grid_getitem _ _ _ _ (sl_from (- bw)) sl_all Ha) as HL.
  pose proof (is_grid_getitem _ _ _ _
                (sl (- (bw + stride)) (- bw)) sl_all Ha) as Hblk.
  assert (Hlo : slice_lo (n + 2 * b) (sl (- (bw + stride)) (- bw))
                = n + b - block_len bw stride n)
    by (unfold block_len, b; slice_arith).
  assert (Hlen : slice_len (n + 2 * b) (sl (- (bw + stride)) (- bw))
                 = block_len bw stride n)
    by (unfold block_len, b; slice_arith).
  rewrite Hlo, Hlen in Hblk.
  pose proof (is_grid_tile_nat _ _ _ _ q 1 Hblk) as Ht.
  pose proof (is_grid_getitem _ _ _ _ (sl_to bw) sl_all Ht) as HR.
  slice_norm. replace (Z.to_nat (- - bw)) with b in * by lia. fold b in HR.
  eapply (is_grid_reshape _ _ _ b M) in HL; [|lia..].
  eapply (is_grid_reshape _ _ _ b M) in HR; [|lia..].
  eapply is_grid_ext; [exact HL|exact HR|].
  intros i j Hi Hj. cbn beta. rewrite (Nat.mod_small (0 + j)) by lia.
  replace (n + 2 * b - b + i) with (n + b + i) by lia.
  replace (0 + i) with i by lia. replace (0 + j) with j by lia.
  by apply Hrep.
Qed.

Lemma left_is_leading_crop a N m g :
  is_grid a N (m + 2 * b) g ->
  (forall i j, i < N -> j < b ->
     g i j = g i (b + j mod block_len bw stride m)) ->
  getitem a sl_all (sl_to bw)
  = getitem (tile_nat (getitem a sl_all (sl bw (bw + stride))) 1 q)
      sl_all (sl_to bw).
Proof using Hbw Hstride.
  intros Ha Hrep. pose proof (block_cover bw stride Hbw Hstride m) as Hcov.
  fold b q in Hcov.
  pose proof (is_grid_getitem _ _ _ _ sl_all (sl_to bw) Ha) as HL.
  pose proof (is_grid_getitem _ _ _ _ sl_all (sl bw (bw + stride)) Ha) as Hblk.
  assert (Hlo : slice_lo (m + 2 * b) (sl bw (bw + stride)) = b)
    by (unfold b; slice_arith).
  assert (Hlen : slice_len (m + 2 * b) (sl bw (bw + stride))
                 = block_len bw stride m)
    by (unfold block_len, b; slice_arith).
  rewrite Hlo, Hlen in Hblk.
  pose proof (is_grid_tile_nat _ _ _ _ 1 q Hblk) as Ht.
  pose proof (is_grid_getitem _ _ _ _ sl_all (sl_to bw) Ht) as HR.
  slice_norm. fold b in HL, HR.
  eapply (is_grid_reshape _ _ _ N b) in HL; [|lia..].
  eapply (is_grid_reshape _ _ _ N b) in HR; [|lia..].
  eapply is_grid_ext; [exact HL|exact HR|].
  intros i j Hi Hj. cbn beta. rewrite (Nat.mod_small (0 + i)) by lia.
  replace (0 + i) with i by lia. replace (0 + j) with j by lia.
  by apply Hrep.
Qed.

Lemma right_is_leading_crop a N m g :
  is_grid a N (m + 2 * b) g ->
  (forall i j, i < N -> j < b ->
     g i (m + b + j)
     = g i (m + b - block_len bw stride m + j mod block_len bw stride m)) ->
  getitem a sl_all (sl_from (- bw))
  = getitem (tile_nat (getitem a sl_all (sl (- (bw + stride)) (- bw))) 1 q)
      sl_all (sl_to bw).
Proof using Hbw Hstride.
  intros Ha Hrep. pose proof (block_cover bw stride Hbw Hstride m) as Hcov.
  fold b q in Hcov.
  pose proof (is_grid_getitem _ _ _ _ sl_all (sl_from (- bw)) Ha) as HL.
  pose proof (is_grid_getitem _ _ _ _ sl_all
                (sl (- (bw + stride)) (- bw)) Ha) as Hblk.
  assert (Hlo : slice_lo (m + 2 * b) (sl (- (bw + stride)) (- bw))
                = m + b - block_len bw stride m)
    by (unfold block_len, b; slice_arith).
  assert (Hlen : slice_len (m + 2 * b) (sl (- (bw + stride)) (- bw))
                 = block_len bw stride m)
    by (unfold block_len, b; slice_arith).
  rewrite Hlo, Hlen in Hblk.
  pose proof (is_grid_tile_nat _ _ _ _ 1 q Hblk) as Ht.
  pose proof (is_grid_getitem _ _ _ _ sl_all (sl_to bw) Ht) as HR.
  slice_norm. replace (Z.to_nat (- - bw)) with b in * by lia. fold b in HR.
  eapply (is_grid_reshape _ _ _ N b) in HL; [|lia..].
  eapply (is_grid_reshape _ _ _ N b) in HR; [|lia..].
  eapply is_grid_ext; [exact HL|exact HR|].
  intros i j Hi Hj. cbn beta. rewrite (Nat.mod_small (0 + i)) by lia.
  replace (m + 2 * b - b + j) with (m + b + j) by lia.
  replace (0 + i) with i by lia. replace (0 + j) with j by lia.
  by apply Hrep.
Qed.
End Crops.

Lemma border_src_top b st n i :
  0 < st <= n -> i < b ->
  border_src b st n i = border_src b st n (b + i mod st).
Proof.
  intros Hst Hi. unfold border_src.
  pose proof (Nat.mod_upper_bound i st ltac:(lia)).
  repeat case_decide; lia.
Qed.

Lemma border_src_bottom b st n i :
  0 < st <= n -> i < b ->
  border_src b st n (n + b + i) = border_src b st n (n + b - st + i mod st).
Proof.
  intros Hst Hi. unfold border_src.
  pose proof (Nat.mod_upper_bound i st ltac:(lia)).
  replace (n + b + i - (n + b)) with i by lia.
  repeat case_decide; lia.
Qed.

(** C4 (as amended): with [stride > 0] every one of the four borders is the
    LEADING [border_width]-length crop of its tiled stride-block:
    [out[:b] = tile(out[b:b+stride], (quot, 1))[:b]],
    [out[-b:] = tile(out[-(b+stride):-b], (quot, 1))[:b]], and the same on
    columns for the left and right borders. *)
Theorem add_border_2d_leading_crops (arr : ndarray) (border_width stride : Z) :
  wf arr -> (0 < border_width)%Z ->
  (0 < stride <= Z.of_nat (nrows arr))%Z -> (stride <= Z.of_nat (ncols arr))%Z ->
  exists out,
    add_border_2d arr border_width stride = Ok out /\
    let quot := Z.to_nat (tile_count border_width border_width stride) in
    let b := border_width in
    getitem out (sl_to b) sl_all
    = getitem (tile_nat (getitem out (sl b (b + stride)) sl_all) quot 1)
        (sl_to b) sl_all /\
    getitem out (sl_from (- b)) sl_all
    = getitem (tile_nat (getitem out (sl (- (b + stride)) (- b)) sl_all) quot 1)
        (sl_to b) sl_all /\
    getitem out sl_all (sl_to b)
    = getitem (tile_nat (getitem out sl_all (sl b (b + stride))) 1 quot)
        sl_all (sl_to b) /\
    getitem out sl_all (sl_from (- b))
    = getitem (tile_nat (getitem out sl_all (sl (- (b + stride)) (- b))) 1 quot)
        sl_all (sl_to b).
Proof.
  intros Hwf Hb Hs Hm. pose proof (is_grid_self _ Hwf) as Harr.
  destruct (add_border_2d_valid _ _ _ _ _ _ Harr Hb Hs Hm) as (out & Ho & Hg).
  exists out. split; [exact Ho|]. cbv zeta.
  set (n := nrows arr) in *. set (m := ncols arr) in *.
  assert (Hst : 0 < Z.to_nat stride <= n) by lia.
  assert (Hst' : 0 < Z.to_nat stride <= m) by lia.
  repeat split.
  - eapply top_is_leading_crop; [lia|lia|exact Hg|].
    intros i j Hi Hj. cbn beta. rewrite block_len_valid by lia.
    f_equal. by apply border_src_top.
  - eapply bottom_is_leading_crop; [lia|lia|exact Hg|].
    intros i j Hi Hj. cbn beta. rewrite block_len_valid by lia.
    f_equal. by apply border_src_bottom.
  - eapply left_is_leading_crop; [lia|lia|exact Hg|].
    intros i j Hi Hj. cbn beta. rewrite block_len_valid by lia.
    f_equal. by apply border_src_top.
  - eapply right_is_leading_crop; [lia|lia|exact Hg|].
    intros i j Hi Hj. cbn beta. rewrite block_len_valid by lia.
    f_equal. by apply border_src_bottom.
Qed.

Lemma add_border_2d_leading_crops_witness :
  wf grid6 /\ (0 < 1)%Z /\
  (0 < 2 <= Z.of_nat (nrows grid6))%Z /\ (2 <= Z.of_nat (ncols grid6))%Z /\
  exists out,
    add_border_2d grid6 1%Z 2%Z = Ok out /\
    let quot := Z.to_nat (tile_count 1 1 2) in
    let b := 1%Z in
    getitem out (sl_to b) sl_all
    = getitem (tile_nat (getitem out (sl b (b + 2)) sl_all) quot 1)
        (sl_to b) sl_all /\
    getitem out (sl_from (- b)) sl_all
    = getitem (tile_nat (getitem out (sl (- (b + 2)) (- b)) sl_all) quot 1)
        (sl_to b) sl_all /\
    getitem out sl_all (sl_to b)
    = getitem (tile_nat (getitem out sl_all (sl b (b + 2))) 1 quot)
        sl_all (sl_to b) /\
    getitem out sl_all (sl_from (- b))
    = getitem (tile_nat (getitem out sl_all (sl (- (b + 2)) (- b))) 1 quot)
        sl_all (sl_to b).
Proof.
  assert (Hwf : wf grid6) by (unfold wf; repeat constructor).
  assert (Hb : (0 < 1)%Z) by lia.
  assert (Hs : (0 < 2 <= Z.of_nat (nrows grid6))%Z) by (vm_compute; split; congruence).
  assert (Hm : (2 <= Z.of_nat (ncols grid6))%Z) by (vm_compute; congruence).
  split; [exact Hwf|]. split; [exact Hb|]. split; [exact Hs|]. split; [exact Hm|].
  exact (add_border_2d_leading_crops grid6 1%Z 2%Z Hwf Hb Hs Hm).
Defined.

(** C4 as stated fails for the bottom and right borders: there the TRAILING
    crop of the tiled block is not what the output holds (6 x 6 grid,
    [border_width = 1], [stride = 2]). *)
Lemma add_border_2d_bottom_right_not_trailing :
  exists out,
    add_border_2d grid6 1%Z 2%Z = Ok out /\
    let quot := Z.to_nat (tile_count 1 1 2) in
    getitem out (sl_from (- 1)) sl_all
    <> getitem (tile_nat (getitem out (sl (- (1 + 2)) (- 1)) sl_all) quot 1)
         (sl_from (- 1)) sl_all /\
    getitem out sl_all (sl_from (- 1))
    <> getitem (tile_nat (getitem out sl_all (sl (- (1 + 2)) (- 1))) 1 quot)
         sl_all (sl_from (- 1)).
Proof.
  eexists. split; [vm_compute; reflexivity|].
  split; vm_compute; discriminate.
Qed.

(** ** [add_border_2d] with [border_width = 0]

    [-0] is [0], so [new_arr[0:-0, 0:-0]] is the empty region and the
    assignment of [arr] to it cannot be broadcast. *)

Lemma bordered_zeros_width0 arr :
  1 < nrows arr \/ 1 < ncols arr -> bordered_zeros arr 0 = Raise ValueError.
Proof.
  intros Hbig. unfold bordered_zeros. rewrite np_zeros_ok by lia. cbn [bind].
  unfold setitem.
  assert (Hl : forall k, slice_len k (sl 0 (- 0)) = 0) by (intros; slice_arith).
  replace (nrows (zeros (Z.to_nat (Z.of_nat (nrows arr) + 0 * 2))
                    (Z.to_nat (Z.of_nat (ncols arr) + 0 * 2))))
    with (nrows arr)
    by (unfold zeros, nrows; cbn [rows]; rewrite length_replicate; lia).
  cbn [ncols zeros]. rewrite !Hl. unfold broadcast_to.
  rewrite decide_False by lia. reflexivity.
Qed.

Lemma add_border_2d_width0 arr stride :
  1 < nrows arr \/ 1 < ncols arr -> add_border_2d arr 0 stride = Raise ValueError.
Proof.
  intros Hbig. unfold add_border_2d. by rewrite bordered_zeros_width0.
Qed.

(** C1, at the failing input: with [border_width = 0] the 6 x 6 grid is not
    returned unchanged but a [ValueError] is raised, for zero fill and for
    replication alike; on a 1 x 1 grid the call returns, with the value
    lost. *)
Theorem add_border_2d_zero_width_fails :
  add_border_2d grid6 0%Z 0%Z = Raise ValueError /\
  add_border_2d grid6 0%Z 1%Z = Raise ValueError /\
  add_border_2d (NdArray 1 [[5%Z]]) 0%Z 0%Z = Ok (NdArray 1 [[0%Z]]).
Proof. vm_compute. repeat split. Qed.

(** C7, at the failing input: with [stride = 0] and [border_width = 0] no
    output is produced at all. *)
Theorem add_border_2d_zero_fill_zero_width_fails :
  add_border_2d (arange_grid 2 3) 0%Z 0%Z = Raise ValueError.
Proof. vm_compute. reflexivity. Qed.

(** What does hold of C7: with [stride = 0] every cell of the [shift_2d]
    output is the translated input cell or 0 where the shift vacated it, and
    for a positive border width every border cell of the [add_border_2d]
    output is 0 around the unchanged input. *)
Lemma zero_fill_cells arr sr sc bw :
  wf arr ->
  (exists out,
     shift_2d arr (sr, sc) 0 = Ok out /\
     nrows out = nrows arr /\ ncols out = ncols arr /\
     forall i j, i < nrows arr -> j < ncols arr ->
       get out i j =
       Some (if decide ((sr <= Z.of_nat i < Z.of_nat (nrows arr) + sr)%Z /\
                        (sc <= Z.of_nat j < Z.of_nat (ncols arr) + sc)%Z)
             then cell arr (Z.to_nat (Z.of_nat i - sr)) (Z.to_nat (Z.of_nat j - sc))
             else 0%Z)) /\
  ((0 < bw)%Z ->
   exists out,
     add_border_2d arr bw 0 = Ok out /\
     nrows out = nrows arr + 2 * Z.to_nat bw /\
     ncols out = ncols arr + 2 * Z.to_nat bw /\
     forall i j, i < nrows out -> j < ncols out ->
       get out i j =
       Some (if decide ((Z.to_nat bw <= i < Z.to_nat bw + nrows arr) /\
                        (Z.to_nat bw <= j < Z.to_nat bw + ncols arr))
             then cell arr (i - Z.to_nat bw) (j - Z.to_nat bw)
             else 0%Z)).
Proof.
  intros Hwf. pose proof (is_grid_self _ Hwf) as Harr. split.
  - destruct (shift_2d_zero_fill _ _ _ _ sr sc 0%Z Harr ltac:(lia))
      as (out & Ho & Hn & Hm & _ & Hg).
    exists out. repeat split; trivial.
  - intros Hb.
    destruct (add_border_2d_zero_border _ _ _ _ bw 0%Z Harr Hb ltac:(lia))
      as (out & Ho & Hn & Hm & _ & Hg).
    exists out. repeat split; trivial.
    intros i j Hi Hj. rewrite Hn in Hi. rewrite Hm in Hj.
    exact (Hg i j Hi Hj).
Qed.

(** ** [shift_2d] keeps a row period

    The half of C3 that the code satisfies: with a valid stride that is a
    multiple of the period, the shifted grid has the same row period, the
    padding block included. *)

Lemma mod_mod_divide a k p : Nat.divide p k -> (a mod k) mod p = a mod p.
Proof.
  intros [c ->]. rewrite (Nat.mul_comm c p), Nat.Div0.mod_mul_r.
  rewrite (Nat.mul_comm p), Nat.Div0.mod_add. apply Nat.Div0.mod_mod.
Qed.

Lemma mod_add_divide a k p : Nat.divide p k -> (a + k) mod p = a mod p.
Proof. intros [c ->]. apply Nat.Div0.mod_add. Qed.

Lemma row_periodic_cell arr p i j :
  row_periodic p arr -> i + p < nrows arr ->
  cell arr i j = cell arr (i + p) j.
Proof. intros Hp Hi. unfold cell, get. by rewrite (Hp i Hi). Qed.

Lemma row_periodic_reduce arr p j x :
  row_periodic p arr -> 0 < p -> x < nrows arr ->
  cell arr x j = cell arr (x mod p) j.
Proof.
  intros Hp Hpos. induction x as [x IH] using lt_wf_ind. intros Hx.
  destruct (decide (x < p)) as [Hlt|Hge].
  - by rewrite Nat.mod_small.
  - replace x with (x - p + p) at 1 by lia.
    rewrite <- (row_periodic_cell arr p (x - p) j Hp) by lia.
    rewrite IH by lia. f_equal.
    replace x with (x - p + 1 * p) at 2 by lia.
    by rewrite Nat.Div0.mod_add.
Qed.

Lemma row_periodic_congr arr p j x y :
  row_periodic p arr -> 0 < p -> x < nrows arr -> y < nrows arr ->
  x mod p = y mod p -> cell arr x j = cell arr y j.
Proof.
  intros Hp Hpos Hx Hy Hxy.
  rewrite (row_periodic_reduce arr p j x), (row_periodic_reduce arr p j y)
    by trivial.
  by rewrite Hxy.
Qed.

Lemma is_grid_row_periodic a n m g p :
  is_grid a n m g ->
  (forall i j, i + p < n -> j < m -> g i j = g (i + p) j) ->
  row_periodic p a.
Proof.
  intros (Hn & Hm & Hwf & Hget) Hg i Hi. rewrite Hn in Hi.
  unfold nrows in Hn.
  destruct (lookup_lt_is_Some_2 (rows a) i) as [r Hr]; [lia|].
  destruct (lookup_lt_is_Some_2 (rows a) (i + p)) as [r' Hr']; [lia|].
  rewrite Hr, Hr'. f_equal.
  pose proof (wf_lookup _ _ _ Hwf Hr). pose proof (wf_lookup _ _ _ Hwf Hr').
  apply list_eq_same_length with m; try lia.
  intros j x y Hj Hx Hy.
  pose proof (Hget i j ltac:(lia) Hj) as H1.
  pose proof (Hget (i + p) j ltac:(lia) Hj) as H2.
  unfold get in H1, H2. rewrite Hr in H1. rewrite Hr' in H2.
  specialize (Hg i j Hi Hj). congruence.
Qed.

(** Along the row axis the source index moves with the output index,
    modulo the period. *)
Lemma src_index_period n sr stride p i :
  (0 < stride <= Z.of_nat n)%Z -> (Z.abs sr <= Z.of_nat n)%Z ->
  Nat.divide p (Z.to_nat stride) -> i + p < n ->
  src_index n sr stride (i + p) mod p = src_index n sr stride i mod p.
Proof.
  intros Hs Hr Hdiv Hi. unfold src_index.
  pose proof (tile_cover sr stride n ltac:(lia) Hr) as Hcov.
  replace (Nat.min (Z.to_nat stride) n) with (Z.to_nat stride) in * by lia.
  set (k := Z.to_nat stride) in *.
  set (q := Z.to_nat (tile_count (Z.abs sr) sr stride)) in *.
  set (s := Z.to_nat (Z.abs sr)) in *.
  assert (Hs_n : s <= n) by lia. assert (Hk : 0 < k <= n) by lia.
  assert (Hqk : Nat.divide p (q * k)) by (by apply Nat.divide_mul_r).
  assert (Hstep : forall c, (c + (i + p)) mod p = (c + i) mod p).
  { intros c. replace (c + (i + p)) with (c + i + 1 * p) by lia.
    apply Nat.Div0.mod_add. }
  destruct (Z.ltb_spec 0 sr); [|destruct (Z.ltb_spec sr 0)].
  - assert (Hu : forall x,
      (if decide (x < s) then (q * k - s + x) mod k else x - s) mod p
      = (q * k - s + x) mod p).
    { intros x. case_decide.
      - by apply mod_mod_divide.
      - replace (q * k - s + x) with (x - s + q * k) by lia.
        by rewrite mod_add_divide. }
    rewrite !Hu. apply Hstep.
  - assert (Hu : forall x, x < n ->
      (if decide (x < n - s) then x + s
       else n - k + (x - (n - s)) mod k) mod p
      = (s + x) mod p).
    { intros x Hx. case_decide.
      - f_equal. lia.
      - rewrite Nat.Div0.add_mod, (mod_mod_divide _ k p Hdiv).
        rewrite <- Nat.Div0.add_mod.
        rewrite <- (mod_add_divide (n - k + (x - (n - s))) k p Hdiv).
        f_equal. lia. }
    rewrite !Hu by lia. apply Hstep.
  - apply (Hstep 0).
Qed.

Lemma shift_2d_keeps_row_period arr p sr sc stride :
  wf arr -> 0 < p -> row_periodic p arr ->
  (0 < stride <= Z.of_nat (nrows arr))%Z -> Nat.divide p (Z.to_nat stride) ->
  (Z.abs sr < Z.of_nat (nrows arr))%Z -> (Z.abs sc < Z.of_nat (ncols arr))%Z ->
  exists out,
    shift_2d arr (sr, sc) stride = Ok out /\
    nrows out = nrows arr /\ ncols out = ncols arr /\
    row_periodic p out.
Proof.
  intros Hwf Hpos Hper Hs Hdiv Hr Hc. pose proof (is_grid_self _ Hwf) as Harr.
  destruct (shift_2d_strided _ _ _ _ sr sc stride Harr ltac:(lia)
              ltac:(lia) ltac:(lia)) as (out & Ho & Hg).
  exists out. split; [exact Ho|]. pose proof Hg as (Hn & Hm & _).
  repeat split; trivial.
  eapply is_grid_row_periodic; [exact Hg|]. intros i j Hi Hj. cbn beta.
  apply (row_periodic_congr arr p); trivial.
  - apply src_index_lt; lia.
  - apply src_index_lt; lia.
  - symmetry. apply src_index_period; trivial; lia.
Qed.

(** C3, at the failing input: rows of period 2, [stride = 2],
    [border_width = 1].  The top border row repeats interior row 0 instead
    of preceding it with row 1: output rows 0 and 1 are equal and the
    period is broken at the top boundary, whereas [shift_2d] with the same
    stride continues the pattern. *)
Theorem add_border_2d_breaks_period :
  row_periodic 2 stripes /\
  add_border_2d stripes 1%Z 2%Z
  = Ok (NdArray 4 [[1; 1; 2; 1]; [1; 1; 2; 1]; [3; 3; 4; 3];
                   [1; 1; 2; 1]; [3; 3; 4; 3]; [1; 1; 2; 1]]%Z) /\
  (forall out, add_border_2d stripes 1%Z 2%Z = Ok out -> ~ row_periodic 2 out) /\
  (forall out, shift_2d stripes (1%Z, 0%Z) 2%Z = Ok out -> row_periodic 2 out).
Proof.
  split; [|split; [|split]].
  - intros i Hi. change (nrows stripes) with 4 in Hi.
    destruct i as [|[|i]]; [reflexivity..|lia].
  - vm_compute. reflexivity.
  - intros out Ho. vm_compute in Ho. injection Ho as <-.
    intros Hp. specialize (Hp 0 ltac:(vm_compute; lia)). discriminate Hp.
  - intros out Ho. vm_compute in Ho. injection Ho as <-.
    intros i Hi. change (nrows _) with 4 in Hi.
    destruct i as [|[|i]]; [reflexivity..|lia].
Qed.

(** ** The stride is never validated *)

Lemma shift_2d_negative_stride arr shifts stride :
  (stride < 0)%Z -> shift_2d arr shifts stride = shift_2d arr shifts 0.
Proof.
  intros Hs. destruct shifts as [sr sc].
  unfold shift_2d, shift_rows, shift_cols.
  destruct (Z.ltb_spec 0 stride); [lia|]. reflexivity.
Qed.

Lemma add_border_2d_negative_stride arr bw stride :
  (stride < 0)%Z -> add_border_2d arr bw stride = add_border_2d arr bw 0.
Proof.
  intros Hs. unfold add_border_2d.
  destruct (Z.ltb_spec 0 stride); [lia|]. reflexivity.
Qed.

(** C5 (as amended): no [InvalidStride] is raised.  For a stride that is
    negative or exceeds the rows or the columns, [shift_2d] with a shift
    within range returns a grid of the input's shape and [add_border_2d]
    with a positive border width returns a grid of shape
    [(rows + 2b) x (cols + 2b)]; a negative stride gives exactly the
    [stride = 0] (zero fill) result. *)
Theorem stride_not_validated
    (arr : ndarray) (shift_row shift_col border_width stride : Z) :
  wf arr ->
  (Z.abs shift_row < Z.of_nat (nrows arr))%Z ->
  (Z.abs shift_col < Z.of_nat (ncols arr))%Z ->
  (0 < border_width)%Z ->
  (stride < 0)%Z \/ (Z.of_nat (nrows arr) < stride)%Z
  \/ (Z.of_nat (ncols arr) < stride)%Z ->
  (exists out,
     shift_2d arr (shift_row, shift_col) stride = Ok out /\
     nrows out = nrows arr /\ ncols out = ncols arr /\ wf out) /\
  (exists out,
     add_border_2d arr border_width stride = Ok out /\
     nrows out = nrows arr + 2 * Z.to_nat border_width /\
     ncols out = ncols arr + 2 * Z.to_nat border_width /\ wf out) /\
  ((stride < 0)%Z ->
   shift_2d arr (shift_row, shift_col) stride
   = shift_2d arr (shift_row, shift_col) 0 /\
   add_border_2d arr border_width stride = add_border_2d arr border_width 0).
Proof.
  intros Hwf Hr Hc Hb _. split; [|split].
  - apply shift_2d_shape; trivial; lia.
  - destruct (add_border_2d_positive_width arr border_width stride Hwf Hb)
      as (out & Ho & Hn & Hm & Hw & _).
    by exists out.
  - intros Hs. split.
    + by apply shift_2d_negative_stride.
    + by apply add_border_2d_negative_stride.
Qed.

Lemma stride_not_validated_witness :
  wf grid6 /\
  (Z.abs 1 < Z.of_nat (nrows grid6))%Z /\
  (Z.abs (-1) < Z.of_nat (ncols grid6))%Z /\
  (0 < 2)%Z /\
  ((-1 < 0)%Z \/ (Z.of_nat (nrows grid6) < -1)%Z
   \/ (Z.of_nat (ncols grid6) < -1)%Z) /\
  (exists out,
     shift_2d grid6 (1%Z, (-1)%Z) (-1)%Z = Ok out /\
     nrows out = nrows grid6 /\ ncols out = ncols grid6 /\ wf out) /\
  (exists out,
     add_border_2d grid6 2%Z (-1)%Z = Ok out /\
     nrows out = nrows grid6 + 2 * Z.to_nat 2 /\
     ncols out = ncols grid6 + 2 * Z.to_nat 2 /\ wf out) /\
  (((-1) < 0)%Z ->
   shift_2d grid6 (1%Z, (-1)%Z) (-1)%Z = shift_2d grid6 (1%Z, (-1)%Z) 0 /\
   add_border_2d grid6 2%Z (-1)%Z = add_border_2d grid6 2%Z 0).
Proof.
  assert (Hwf : wf grid6) by (unfold wf; repeat constructor).
  assert (Hr : (Z.abs 1 < Z.of_nat (nrows grid6))%Z) by (vm_compute; reflexivity).
  assert (Hc : (Z.abs (-1) < Z.of_nat (ncols grid6))%Z) by (vm_compute; reflexivity).
  assert (Hb : (0 < 2)%Z) by lia.
  assert (Hs : ((-1 < 0)%Z \/ (Z.of_nat (nrows grid6) < -1)%Z
                \/ (Z.of_nat (ncols grid6) < -1)%Z)) by (left; lia).
  split; [exact Hwf|]. split; [exact Hr|]. split; [exact Hc|].
  split; [exact Hb|]. split; [exact Hs|].
  exact (stride_not_validated grid6 1%Z (-1)%Z 2%Z (-1)%Z Hwf Hr Hc Hb Hs).
Defined.

(** C5 as stated fails: a negative stride and a stride larger than the grid
    raise nothing, in either function. *)
Lemma invalid_stride_not_raised :
  raises (shift_2d grid6 (1%Z, 0%Z) (-1)%Z) = false /\
  raises (add_border_2d grid6 1%Z (-1)%Z) = false /\
  nrows grid6 = 6 /\ ncols grid6 = 6 /\
  raises (shift_2d grid6 (1%Z, 0%Z) 7%Z) = false /\
  raises (add_border_2d grid6 1%Z 7%Z) = false.
Proof. vm_compute. repeat split. Qed.

(** ** Only values of the input, or zero, reach the output *)

Section Elems.
Variable P : Z -> Prop.
Hypothesis P0 : P 0%Z.

Lemma all_elems_zeros n m : all_elems P (zeros n m).
Proof using P0.
  unfold all_elems, zeros. cbn [rows].
  apply Forall_replicate, Forall_replicate, P0.
Qed.

Lemma all_elems_zeros_like a : all_elems P (zeros_like a).
Proof using P0. apply all_elems_zeros. Qed.

Lemma Forall_sub_list {A} (Q : A -> Prop) lo n (l : list A) :
  Forall Q l -> Forall Q (sub_list lo n l).
Proof. intros. unfold sub_list. by apply Forall_take, Forall_drop. Qed.

Lemma all_elems_getitem a sr sc :
  all_elems P a -> all_elems P (getitem a sr sc).
Proof.
  unfold all_elems, getitem. cbn [rows]. intros Ha.
  apply Forall_fmap. apply Forall_sub_list.
  eapply Forall_impl; [exact Ha|]. intros r Hr. unfold compose.
  by apply Forall_sub_list.
Qed.

Lemma Forall_bcast {A} (Q : A -> Prop) n (l : list A) :
  Forall Q l -> Forall Q (bcast n l).
Proof.
  intros Hl. destruct l as [|x [|y l]]; cbn [bcast]; trivial.
  apply Forall_replicate. by inversion Hl.
Qed.

Lemma res_all_broadcast_to v n m :
  all_elems P v -> res_all P (broadcast_to v n m).
Proof.
  intros Hv. unfold broadcast_to. case_decide; [|exact I].
  unfold res_all, all_elems in *. cbn [rows].
  apply Forall_bcast, Forall_fmap.
  eapply Forall_impl; [exact Hv|]. intros r Hr. unfold compose.
  by apply Forall_bcast.
Qed.

Lemma res_all_bind m k :
  res_all P m -> (forall a, all_elems P a -> res_all P (k a)) ->
  res_all P (bind m k).
Proof. destruct m as [a|e]; cbn [bind res_all]; auto. Qed.

Lemma res_all_setitem a sr sc v :
  all_elems P a -> all_elems P v -> res_all P (setitem a sr sc v).
Proof.
  intros Ha Hv. unfold setitem. apply res_all_bind.
  - by apply res_all_broadcast_to.
  - intros v' Hv'. unfold res_all, all_elems in *. cbn [rows].
    apply Forall_app. split; [by apply Forall_take|].
    apply Forall_app. split; [|by apply Forall_drop].
    apply Forall_lookup. intros i r Hi.
    rewrite lookup_zip_with in Hi.
    destruct (sub_list _ _ (rows a) !! i) as [r0|] eqn:Hr0; [|done].
    destruct (rows v' !! i) as [w|] eqn:Hw; [|done].
    cbn in Hi. injection Hi as <-.
    pose proof (Forall_lookup_1 _ _ _ _ (Forall_sub_list _ _ _ _ Ha) Hr0).
    pose proof (Forall_lookup_1 _ _ _ _ Hv' Hw).
    apply Forall_app. split; [by apply Forall_take|].
    apply Forall_app. split; [trivial|by apply Forall_drop].
Qed.

Lemma Forall_concat_replicate {A} (Q : A -> Prop) q (l : list A) :
  Forall Q l -> Forall Q (concat (replicate q l)).
Proof. intros. by apply Forall_concat, Forall_replicate. Qed.

Lemma res_all_tile a reps : all_elems P a -> res_all P (tile a reps).
Proof.
  intros Ha. unfold tile. destruct reps as [qr qc].
  destruct (_ || _); [exact I|].
  unfold res_all, all_elems, tile_nat in *. cbn [rows].
  apply Forall_concat_replicate, Forall_fmap.
  eapply Forall_impl; [exact Ha|]. intros r Hr. unfold compose.
  by apply Forall_concat_replicate.
Qed.

Lemma res_all_vstack a b :
  all_elems P a -> all_elems P b -> res_all P (vstack a b).
Proof.
  intros Ha Hb. unfold vstack. case_decide; [|exact I].
  unfold res_all, all_elems in *. cbn [rows]. by apply Forall_app.
Qed.

Lemma res_all_hstack a b :
  all_elems P a -> all_elems P b -> res_all P (hstack a b).
Proof.
  intros Ha Hb. unfold hstack. case_decide; [|exact I].
  unfold res_all, all_elems in *. cbn [rows].
  apply Forall_lookup. intros i r Hi. rewrite lookup_zip_with in Hi.
  destruct (rows a !! i) as [r0|] eqn:Hr0; [|done].
  destruct (rows b !! i) as [w|] eqn:Hw; [|done].
  cbn in Hi. injection Hi as <-. apply Forall_app. split.
  - exact (Forall_lookup_1 _ _ _ _ Ha Hr0).
  - exact (Forall_lookup_1 _ _ _ _ Hb Hw).
Qed.

Lemma res_all_np_zeros n m : res_all P (np_zeros n m).
Proof using P0.
  unfold np_zeros. destruct (_ || _); [exact I|]. apply all_elems_zeros.
Qed.

Ltac elems :=
  repeat first
    [ assumption
    | exact I
    | apply all_elems_zeros_like
    | apply all_elems_getitem
    | apply res_all_np_zeros
    | apply res_all_setitem
    | apply res_all_tile
    | apply res_all_vstack
    | apply res_all_hstack
    | apply res_all_bind; [|intros ? ?]
    | match goal with |- res_all _ (if ?c then _ else _) => destruct c end ].

Lemma res_all_shift_2d arr shifts stride :
  all_elems P arr -> res_all P (shift_2d arr shifts stride).
Proof using P0.
  intros Ha. destruct shifts as [sr sc].
  unfold shift_2d, shift_rows, shift_cols. elems.
Qed.

Lemma res_all_add_border_2d arr bw stride :
  all_elems P arr -> res_all P (add_border_2d arr bw stride).
Proof using P0.
  intros Ha.
  unfold add_border_2d, bordered_zeros, fill_top, fill_bottom, fill_left,
    fill_right.
  elems.
Qed.
End Elems.

Lemma all_elems_self a : all_elems (fun x => x = 0%Z \/ In x (elements a)) a.
Proof.
  unfold all_elems, elements. apply Forall_forall. intros r Hr.
  apply Forall_forall. intros x Hx. right.
  apply in_concat. exists r. split; by apply list_elem_of_In.
Qed.

(** C10: whatever the arguments, every element of a grid returned by
    [shift_2d] or [add_border_2d] is zero or an element of the input grid
    (when the call raises there is no grid). *)
Theorem outputs_hold_input_values_or_zero
    (arr : ndarray) (shifts : Z * Z) (border_width stride : Z) :
  let from_input := fun x => x = 0%Z \/ In x (elements arr) in
  match shift_2d arr shifts stride with
  | Ok out => all_elems from_input out
  | Raise _ => True
  end /\
  match add_border_2d arr border_width stride with
  | Ok out => all_elems from_input out
  | Raise _ => True
  end.
Proof.
  intros from_input. split.
  - apply (res_all_shift_2d from_input); [by left|apply all_elems_self].
  - apply (res_all_add_border_2d from_input); [by left|apply all_elems_self].
Qed.

(** * Further properties of [shift_2d] and [add_border_2d] *)

Lemma wf_get_cell arr i j :
  wf arr -> i < nrows arr -> j < ncols arr ->
  get arr i j = Some (cell arr i j).
Proof. intros Hwf Hi Hj. by apply (is_grid_self arr Hwf). Qed.

Lemma wf_grid6 : wf grid6.
Proof. unfold wf. repeat constructor. Qed.

Lemma src_index_kept n shift stride i :
  (shift <= Z.of_nat i < Z.of_nat n + shift)%Z ->
  src_index n shift stride i = Z.to_nat (Z.of_nat i - shift).
Proof.
  intros Hi. unfold src_index.
  destruct (Z.ltb_spec 0 shift); [|destruct (Z.ltb_spec shift 0)];
    repeat case_decide; lia.
Qed.

(** X1: a shift within range moves the content exactly, whatever the stride:
    wherever cell [(i - shift_row, j - shift_col)] lies in the grid, output
    cell [(i, j)] holds it. *)
Theorem shift_2d_translates
    (arr : ndarray) (shift_row shift_col stride : Z) :
  wf arr ->
  (Z.abs shift_row < Z.of_nat (nrows arr))%Z ->
  (Z.abs shift_col < Z.of_nat (ncols arr))%Z ->
  exists out,
    shift_2d arr (shift_row, shift_col) stride = Ok out /\
    forall i j,
      (shift_row <= Z.of_nat i < Z.of_nat (nrows arr) + shift_row)%Z ->
      (shift_col <= Z.of_nat j < Z.of_nat (ncols arr) + shift_col)%Z ->
      i < nrows arr -> j < ncols arr ->
      get out i j
      = get arr (Z.to_nat (Z.of_nat i - shift_row))
          (Z.to_nat (Z.of_nat j - shift_col)).
Proof.
  intros Hwf Hr Hc. pose proof (is_grid_self _ Hwf) as Harr.
  destruct (Z.lt_ge_cases 0 stride) as [Hs|Hs].
  - destruct (shift_2d_strided _ _ _ _ shift_row shift_col _ Harr Hs
                ltac:(lia) ltac:(lia)) as (out & Ho & _ & _ & _ & Hg).
    exists out. split; [exact Ho|]. intros i j Hi Hj Hin Hjn.
    rewrite (Hg i j Hin Hjn), !src_index_kept by trivial.
    symmetry. apply wf_get_cell; trivial; lia.
  - destruct (shift_2d_zero_fill _ _ _ _ shift_row shift_col _ Harr Hs)
      as (out & Ho & _ & _ & _ & Hg).
    exists out. split; [exact Ho|]. intros i j Hi Hj Hin Hjn.
    rewrite (Hg i j Hin Hjn), decide_True by tauto.
    symmetry. apply wf_get_cell; trivial; lia.
Qed.

Lemma shift_2d_translates_witness :
  wf grid6 /\
  (Z.abs 2 < Z.of_nat (nrows grid6))%Z /\
  (Z.abs (-1) < Z.of_nat (ncols grid6))%Z /\
  exists out,
    shift_2d grid6 (2%Z, (-1)%Z) 2%Z = Ok out /\
    forall i j,
      (2 <= Z.of_nat i < Z.of_nat (nrows grid6) + 2)%Z ->
      (-1 <= Z.of_nat j < Z.of_nat (ncols grid6) + -1)%Z ->
      i < nrows grid6 -> j < ncols grid6 ->
      get out i j
      = get grid6 (Z.to_nat (Z.of_nat i - 2)) (Z.to_nat (Z.of_nat j - -1)).
Proof.
  assert (Hr : (Z.abs 2 < Z.of_nat (nrows grid6))%Z) by (vm_compute; reflexivity).
  assert (Hc : (Z.abs (-1) < Z.of_nat (ncols grid6))%Z) by (vm_compute; reflexivity).
  split; [exact wf_grid6|]. split; [exact Hr|]. split; [exact Hc|].
  exact (shift_2d_translates grid6 2%Z (-1)%Z 2%Z wf_grid6 Hr Hc).
Defined.

(** X2: with zero fill ([stride <= 0]) and ANY shift, [shift_2d] returns a
    grid of the input's shape in which cell [(i, j)] is input cell
    [(i - shift_row, j - shift_col)] where that lies in the grid, and 0
    everywhere else. *)
Theorem shift_2d_zero_fill_cells
    (arr : ndarray) (shift_row shift_col stride : Z) :
  wf arr -> (stride <= 0)%Z ->
  exists out,
    shift_2d arr (shift_row, shift_col) stride = Ok out /\
    nrows out = nrows arr /\ ncols out = ncols arr /\ wf out /\
    forall i j, i < nrows arr -> j < ncols arr ->
      get out i j =
      if decide ((shift_row <= Z.of_nat i < Z.of_nat (nrows arr) + shift_row)%Z
                 /\ (shift_col <= Z.of_nat j < Z.of_nat (ncols arr) + shift_col)%Z)
      then get arr (Z.to_nat (Z.of_nat i - shift_row))
             (Z.to_nat (Z.of_nat j - shift_col))
      else Some 0%Z.
Proof.
  intros Hwf Hs. pose proof (is_grid_self _ Hwf) as Harr.
  destruct (shift_2d_zero_fill _ _ _ _ shift_row shift_col _ Harr Hs)
    as (out & Ho & Hn & Hm & Hw & Hg).
  exists out. repeat split; trivial. intros i j Hi Hj.
  rewrite (Hg i j Hi Hj). case_decide; [|reflexivity].
  symmetry. apply wf_get_cell; trivial; lia.
Qed.

Lemma shift_2d_zero_fill_cells_witness :
  wf grid6 /\ (0 <= 0)%Z /\
  exists out,
    shift_2d grid6 (1%Z, (-9)%Z) 0%Z = Ok out /\
    nrows out = nrows grid6 /\ ncols out = ncols grid6 /\ wf out /\
    forall i j, i < nrows grid6 -> j < ncols grid6 ->
      get out i j =
      if decide ((1 <= Z.of_nat i < Z.of_nat (nrows grid6) + 1)%Z
                 /\ (-9 <= Z.of_nat j < Z.of_nat (ncols grid6) + -9)%Z)
      then get grid6 (Z.to_nat (Z.of_nat i - 1)) (Z.to_nat (Z.of_nat j - -9))
      else Some 0%Z.
Proof.
  assert (Hs : (0 <= 0)%Z) by lia.
  split; [exact wf_grid6|]. split; [exact Hs|].
  exact (shift_2d_zero_fill_cells grid6 1%Z (-9)%Z 0%Z wf_grid6 Hs).
Defined.

Lemma src_index_stride1 n shift i :
  (Z.abs shift < Z.of_nat n)%Z -> i < n ->
  src_index n shift 1 i = clamp n (Z.of_nat i - shift).
Proof.
  intros Hr Hi. unfold src_index, clamp.
  replace (Nat.min (Z.to_nat 1) n) with 1 by lia.
  destruct (Z.ltb_spec 0 shift); [|destruct (Z.ltb_spec shift 0)];
    repeat case_decide; rewrite ?Nat.mod_1_r; lia.
Qed.

(** X3: [stride = 1] is edge replication ("copy the last row/column"): for a
    shift within range, output cell [(i, j)] is the input cell at
    [(i - shift_row, j - shift_col)] clamped into the grid. *)
Theorem shift_2d_stride1_clamps (arr : ndarray) (shift_row shift_col : Z) :
  wf arr ->
  (Z.abs shift_row < Z.of_nat (nrows arr))%Z ->
  (Z.abs shift_col < Z.of_nat (ncols arr))%Z ->
  exists out,
    shift_2d arr (shift_row, shift_col) 1 = Ok out /\
    forall i j, i < nrows arr -> j < ncols arr ->
      get out i j
      = get arr (clamp (nrows arr) (Z.of_nat i - shift_row))
          (clamp (ncols arr) (Z.of_nat j - shift_col)).
Proof.
  intros Hwf Hr Hc. pose proof (is_grid_self _ Hwf) as Harr.
  destruct (shift_2d_strided _ _ _ _ shift_row shift_col 1%Z Harr
              ltac:(lia) ltac:(lia) ltac:(lia)) as (out & Ho & _ & _ & _ & Hg).
  exists out. split; [exact Ho|]. intros i j Hi Hj.
  rewrite (Hg i j Hi Hj), !src_index_stride1 by trivial.
  symmetry. apply wf_get_cell; trivial; unfold clamp; lia.
Qed.

Lemma shift_2d_stride1_clamps_witness :
  wf grid6 /\
  (Z.abs (-3) < Z.of_nat (nrows grid6))%Z /\
  (Z.abs 2 < Z.of_nat (ncols grid6))%Z /\
  exists out,
    shift_2d grid6 ((-3)%Z, 2%Z) 1 = Ok out /\
    forall i j, i < nrows grid6 -> j < ncols grid6 ->
      get out i j
      = get grid6 (clamp (nrows grid6) (Z.of_nat i - -3))
          (clamp (ncols grid6) (Z.of_nat j - 2)).
Proof.
  assert (Hr : (Z.abs (-3) < Z.of_nat (nrows grid6))%Z) by (vm_compute; reflexivity).
  assert (Hc : (Z.abs 2 < Z.of_nat (ncols grid6))%Z) by (vm_compute; reflexivity).
  split; [exact wf_grid6|]. split; [exact Hr|]. split; [exact Hc|].
  exact (shift_2d_stride1_clamps grid6 (-3)%Z 2%Z wf_grid6 Hr Hc).
Defined.

Ltac fn_arith :=
  cbn beta; repeat case_decide; try lia; try reflexivity;
  try (f_equal; lia).

(** A shift within range, for either stride regime, on index functions. *)
Lemma shift_2d_grid arr n m f sr sc stride :
  is_grid arr n m f ->
  (Z.abs sr <= Z.of_nat n)%Z -> (Z.abs sc <= Z.of_nat m)%Z ->
  exists out,
    shift_2d arr (sr, sc) stride = Ok out /\
    is_grid out n m
      (fun i j =>
         if decide (0 < stride)%Z
         then f (src_index n sr stride i) (src_index m sc stride j)
         else if decide ((sr <= Z.of_nat i < Z.of_nat n + sr)%Z /\
                         (sc <= Z.of_nat j < Z.of_nat m + sc)%Z)
              then f (Z.to_nat (Z.of_nat i - sr)) (Z.to_nat (Z.of_nat j - sc))
              else 0%Z).
Proof.
  intros Harr Hr Hc. destruct (decide (0 < stride)%Z) as [Hs|Hs].
  - exact (shift_2d_strided _ _ _ _ sr sc _ Harr Hs Hr Hc).
  - exact (shift_2d_zero_fill _ _ _ _ sr sc stride Harr ltac:(lia)).
Qed.

(** X4: a shift within range by [(shift_row, shift_col)] is the row shift
    followed by the column shift, and also the column shift followed by the
    row shift: the two passes commute, for every stride. *)
Theorem shift_2d_passes_commute
    (arr : ndarray) (shift_row shift_col stride : Z) :
  wf arr ->
  (Z.abs shift_row < Z.of_nat (nrows arr))%Z ->
  (Z.abs shift_col < Z.of_nat (ncols arr))%Z ->
  shift_2d arr (shift_row, shift_col) stride
  = (a <-- shift_2d arr (shift_row, 0%Z) stride ;;
     shift_2d a (0%Z, shift_col) stride) /\
  shift_2d arr (shift_row, shift_col) stride
  = (a <-- shift_2d arr (0%Z, shift_col) stride ;;
     shift_2d a (shift_row, 0%Z) stride).
Proof.
  intros Hwf Hr Hc. pose proof (is_grid_self _ Hwf) as Harr.
  set (n := nrows arr) in *. set (m := ncols arr) in *.
  destruct (shift_2d_grid _ _ _ _ shift_row shift_col stride Harr
              ltac:(lia) ltac:(lia)) as (out & -> & Hout).
  split.
  - destruct (shift_2d_grid _ _ _ _ shift_row 0%Z stride Harr
                ltac:(lia) ltac:(lia)) as (a & -> & Ha).
    cbn [bind].
    destruct (shift_2d_grid _ _ _ _ 0%Z shift_col stride Ha
                ltac:(lia) ltac:(lia)) as (out' & -> & Hout').
    f_equal. eapply is_grid_ext; [exact Hout|exact Hout'|].
    intros i j Hi Hj. cbn beta. rewrite ?src_index_zero. fn_arith.
  - destruct (shift_2d_grid _ _ _ _ 0%Z shift_col stride Harr
                ltac:(lia) ltac:(lia)) as (a & -> & Ha).
    cbn [bind].
    destruct (shift_2d_grid _ _ _ _ shift_row 0%Z stride Ha
                ltac:(lia) ltac:(lia)) as (out' & -> & Hout').
    f_equal. eapply is_grid_ext; [exact Hout|exact Hout'|].
    intros i j Hi Hj. cbn beta. rewrite ?src_index_zero. fn_arith.
Qed.

Lemma shift_2d_passes_commute_witness :
  wf grid6 /\
  (Z.abs (-2) < Z.of_nat (nrows grid6))%Z /\
  (Z.abs 3 < Z.of_nat (ncols grid6))%Z /\
  shift_2d grid6 ((-2)%Z, 3%Z) 2%Z
  = (a <-- shift_2d grid6 ((-2)%Z, 0%Z) 2%Z ;; shift_2d a (0%Z, 3%Z) 2%Z) /\
  shift_2d grid6 ((-2)%Z, 3%Z) 2%Z
  = (a <-- shift_2d grid6 (0%Z, 3%Z) 2%Z ;; shift_2d a ((-2)%Z, 0%Z) 2%Z).
Proof.
  assert (Hr : (Z.abs (-2) < Z.of_nat (nrows grid6))%Z) by (vm_compute; reflexivity).
  assert (Hc : (Z.abs 3 < Z.of_nat (ncols grid6))%Z) by (vm_compute; reflexivity).
  split; [exact wf_grid6|]. split; [exact Hr|]. split; [exact Hc|].
  exact (shift_2d_passes_commute grid6 (-2)%Z 3%Z 2%Z wf_grid6 Hr Hc).
Defined.

(** X5: with zero fill, two shifts in the same direction on each axis add
    up: shifting by [(r1, c1)] and then by [(r2, c2)] is shifting by
    [(r1 + r2, c1 + c2)], out-of-range amounts included. *)
Theorem shift_2d_zero_fill_adds (arr : ndarray) (r1 c1 r2 c2 stride : Z) :
  wf arr -> (stride <= 0)%Z ->
  (0 <= r1 /\ 0 <= r2)%Z \/ (r1 <= 0 /\ r2 <= 0)%Z ->
  (0 <= c1 /\ 0 <= c2)%Z \/ (c1 <= 0 /\ c2 <= 0)%Z ->
  (a <-- shift_2d arr (r1, c1) stride ;; shift_2d a (r2, c2) stride)
  = shift_2d arr ((r1 + r2)%Z, (c1 + c2)%Z) stride.
Proof.
  intros Hwf Hs Hr Hc. pose proof (is_grid_self _ Hwf) as Harr.
  destruct (shift_2d_zero_fill _ _ _ _ r1 c1 _ Harr Hs) as (a & -> & Ha).
  cbn [bind].
  destruct (shift_2d_zero_fill _ _ _ _ r2 c2 _ Ha Hs) as (out & -> & Hout).
  destruct (shift_2d_zero_fill _ _ _ _ (r1 + r2)%Z (c1 + c2)%Z _ Harr Hs)
    as (out' & -> & Hout').
  f_equal. eapply is_grid_ext; [exact Hout|exact Hout'|].
  intros i j Hi Hj. fn_arith.
Qed.

Lemma shift_2d_zero_fill_adds_witness :
  wf grid6 /\ (0 <= 0)%Z /\
  ((0 <= 1 /\ 0 <= 2)%Z \/ (1 <= 0 /\ 2 <= 0)%Z) /\
  ((0 <= -2 /\ 0 <= -1)%Z \/ (-2 <= 0 /\ -1 <= 0)%Z) /\
  (a <-- shift_2d grid6 (1%Z, (-2)%Z) 0%Z ;; shift_2d a (2%Z, (-1)%Z) 0%Z)
  = shift_2d grid6 ((1 + 2)%Z, (-2 + -1)%Z) 0%Z.
Proof.
  assert (Hs : (0 <= 0)%Z) by lia.
  assert (Hr : (0 <= 1 /\ 0 <= 2)%Z \/ (1 <= 0 /\ 2 <= 0)%Z) by (left; lia).
  assert (Hc : (0 <= -2 /\ 0 <= -1)%Z \/ (-2 <= 0 /\ -1 <= 0)%Z) by (right; lia).
  split; [exact wf_grid6|]. split; [exact Hs|]. split; [exact Hr|].
  split; [exact Hc|].
  exact (shift_2d_zero_fill_adds grid6 1%Z (-2)%Z 2%Z (-1)%Z 0%Z
           wf_grid6 Hs Hr Hc).
Defined.

(** ** Mosaics *)

Lemma nat_mod_phase (a p : nat) (z c : Z) :
  0 < p -> Z.of_nat a = (z + c * Z.of_nat p)%Z -> a mod p = phase p z.
Proof.
  intros Hp Ha. unfold phase. apply Nat2Z.inj.
  rewrite Nat2Z.inj_mod, Ha, Z.mod_add by lia.
  rewrite Z2Nat.id; [reflexivity|]. apply Z.mod_pos_bound. lia.
Qed.

Lemma src_index_phase n sr stride p i :
  (0 < stride <= Z.of_nat n)%Z -> (Z.abs sr <= Z.of_nat n)%Z ->
  0 < p -> Nat.divide p (Z.to_nat stride) -> i < n ->
  src_index n sr stride i mod p = phase p (Z.of_nat i - sr).
Proof.
  intros Hs Hr Hp Hdiv Hi. unfold src_index.
  pose proof (tile_cover sr stride n ltac:(lia) Hr) as Hcov.
  replace (Nat.min (Z.to_nat stride) n) with (Z.to_nat stride) in * by lia.
  set (k := Z.to_nat stride) in *.
  set (q := Z.to_nat (tile_count (Z.abs sr) sr stride)) in *.
  set (s := Z.to_nat (Z.abs sr)) in *.
  assert (Hk : 0 < k <= n) by lia.
  pose proof Hdiv as [c Hc].
  assert (Hqk : q * k = q * c * p) by (rewrite Hc; lia).
  destruct (Z.ltb_spec 0 sr); [|destruct (Z.ltb_spec sr 0)].
  - case_decide.
    + rewrite mod_mod_divide by trivial.
      apply (nat_mod_phase _ _ _ (Z.of_nat (q * c))); lia.
    + apply (nat_mod_phase _ _ _ 0%Z); lia.
  - case_decide.
    + apply (nat_mod_phase _ _ _ 0%Z); lia.
    + rewrite Nat.Div0.add_mod, (mod_mod_divide _ k p Hdiv).
      rewrite <- Nat.Div0.add_mod.
      apply (nat_mod_phase _ _ _ (- Z.of_nat c)%Z); lia.
  - apply (nat_mod_phase _ _ _ 0%Z); lia.
Qed.

Lemma mosaic_cell arr p q pat i j :
  mosaic p q pat arr -> i < nrows arr -> j < ncols arr ->
  cell arr i j = pat (i mod p) (j mod q).
Proof. intros Hm Hi Hj. unfold cell. by rewrite (Hm i j Hi Hj). Qed.

Lemma mosaic_bayer : mosaic 2 2 bayer_cell bayer.
Proof.
  intros i j Hi Hj. change (nrows bayer) with 4 in Hi.
  change (ncols bayer) with 4 in Hj.
  destruct i as [|[|[|[|i]]]]; try lia;
    destruct j as [|[|[|[|j]]]]; try lia; reflexivity.
Qed.

Lemma wf_bayer : wf bayer.
Proof. unfold wf. repeat constructor. Qed.

(** X6: shifting a mosaic keeps the mosaic.  If the grid repeats a [p x q]
    pattern and the stride is within the grid and a multiple of both [p]
    and [q], then after a shift within range EVERY output cell, padding
    included, holds the pattern moved by the shift:
    [out[i][j] = pat[(i - shift_row) mod p][(j - shift_col) mod q]]. *)
Theorem shift_2d_keeps_mosaic
    (arr : ndarray) (p q : nat) (pat : nat -> nat -> Z)
    (shift_row shift_col stride : Z) :
  wf arr -> mosaic p q pat arr -> 0 < p -> 0 < q ->
  (0 < stride <= Z.of_nat (nrows arr))%Z -> (stride <= Z.of_nat (ncols arr))%Z ->
  Nat.divide p (Z.to_nat stride) -> Nat.divide q (Z.to_nat stride) ->
  (Z.abs shift_row < Z.of_nat (nrows arr))%Z ->
  (Z.abs shift_col < Z.of_nat (ncols arr))%Z ->
  exists out,
    shift_2d arr (shift_row, shift_col) stride = Ok out /\
    nrows out = nrows arr /\ ncols out = ncols arr /\
    forall i j, i < nrows arr -> j < ncols arr ->
      get out i j
      = Some (pat (phase p (Z.of_nat i - shift_row))
                (phase q (Z.of_nat j - shift_col))).
Proof.
  intros Hwf Hmos Hp Hq Hs Hsc Hdp Hdq Hr Hc.
  pose proof (is_grid_self _ Hwf) as Harr.
  destruct (shift_2d_strided _ _ _ _ shift_row shift_col stride Harr
              ltac:(lia) ltac:(lia) ltac:(lia)) as (out & Ho & Hn & Hm & _ & Hg).
  exists out. repeat split; trivial. intros i j Hi Hj.
  rewrite (Hg i j Hi Hj). f_equal.
  rewrite (mosaic_cell arr p q pat) by (trivial; apply src_index_lt; lia).
  by rewrite !src_index_phase by (trivial; lia).
Qed.

Lemma shift_2d_keeps_mosaic_witness :
  wf bayer /\ mosaic 2 2 bayer_cell bayer /\ 0 < 2 /\ 0 < 2 /\
  (0 < 2 <= Z.of_nat (nrows bayer))%Z /\ (2 <= Z.of_nat (ncols bayer))%Z /\
  Nat.divide 2 (Z.to_nat 2) /\ Nat.divide 2 (Z.to_nat 2) /\
  (Z.abs 1 < Z.of_nat (nrows bayer))%Z /\
  (Z.abs (-3) < Z.of_nat (ncols bayer))%Z /\
  exists out,
    shift_2d bayer (1%Z, (-3)%Z) 2%Z = Ok out /\
    nrows out = nrows bayer /\ ncols out = ncols bayer /\
    forall i j, i < nrows bayer -> j < ncols bayer ->
      get out i j
      = Some (bayer_cell (phase 2 (Z.of_nat i - 1)) (phase 2 (Z.of_nat j - -3))).
Proof.
  assert (Hp : 0 < 2) by lia.
  assert (Hs : (0 < 2 <= Z.of_nat (nrows bayer))%Z) by (vm_compute; split; congruence).
  assert (Hsc : (2 <= Z.of_nat (ncols bayer))%Z) by (vm_compute; congruence).
  assert (Hd : Nat.divide 2 (Z.to_nat 2)) by (exists 1; reflexivity).
  assert (Hr : (Z.abs 1 < Z.of_nat (nrows bayer))%Z) by (vm_compute; reflexivity).
  assert (Hc : (Z.abs (-3) < Z.of_nat (ncols bayer))%Z) by (vm_compute; reflexivity).
  split; [exact wf_bayer|]. split; [exact mosaic_bayer|].
  split; [exact Hp|]. split; [exact Hp|]. split; [exact Hs|].
  split; [exact Hsc|]. split; [exact Hd|]. split; [exact Hd|].
  split; [exact Hr|]. split; [exact Hc|].
  exact (shift_2d_keeps_mosaic bayer 2 2 bayer_cell 1%Z (-3)%Z 2%Z
           wf_bayer mosaic_bayer Hp Hp Hs Hsc Hd Hd Hr Hc).
Defined.

(** ** Replication with a shift beyond the grid *)

Lemma shift_rows_far arr n m f sr stride :
  is_grid arr n m f -> (0 < stride <= Z.of_nat n)%Z ->
  (Z.of_nat n < Z.abs sr)%Z ->
  exists out g,
    shift_rows arr sr stride = Ok out /\
    is_grid out (Z.to_nat (Z.abs sr)) m g.
Proof.
  intros Harr Hs Hr. unfold shift_rows.
  pose proof (tile_cover sr stride (Z.to_nat (Z.abs sr)) ltac:(lia) ltac:(lia))
    as Hcov.
  destruct (tile_count_abs sr stride ltac:(lia)) as (Hq0 & _ & _).
  set (q := tile_count (Z.abs sr) sr stride) in *.
  set (s := Z.to_nat (Z.abs sr)) in *.
  replace (Nat.min (Z.to_nat stride) s) with (Z.to_nat stride) in Hcov by lia.
  destruct (Z.ltb_spec 0 stride); [|lia].
  rewrite !tile_ok by lia.
  destruct (Z.ltb_spec 0 sr); [|destruct (Z.ltb_spec sr 0); [|lia]]; cbn [bind].
  - pose proof (is_grid_getitem _ _ _ _ (sl_to stride) sl_all Harr) as Hblk.
    pose proof (is_grid_tile_nat _ _ _ _ (Z.to_nat q) (Z.to_nat 1) Hblk) as Ht.
    pose proof (is_grid_getitem _ _ _ _ (sl_from (- sr)) sl_all Ht) as Hsa.
    pose proof (is_grid_getitem _ _ _ _ (sl_to (- sr)) sl_all Harr) as Hrest.
    slice_norm.
    replace (Nat.min (Z.to_nat stride) n) with (Z.to_nat stride) in * by lia.
    replace (Z.to_nat (- - sr)) with s in * by lia.
    eapply (is_grid_reshape _ _ _ s m) in Hsa; [|lia..].
    destruct (is_grid_vstack _ _ _ _ _ _ _ Hsa Hrest) as (out & Hout & Hg).
    exists out. eexists. split; [exact Hout|].
    eapply is_grid_reshape; [exact Hg|lia|reflexivity].
  - pose proof (is_grid_getitem _ _ _ _ (sl_from (- stride)) sl_all Harr) as Hblk.
    pose proof (is_grid_tile_nat _ _ _ _ (Z.to_nat q) (Z.to_nat 1) Hblk) as Ht.
    pose proof (is_grid_getitem _ _ _ _ (sl_to (- sr)) sl_all Ht) as Hsa.
    pose proof (is_grid_getitem _ _ _ _ (sl_from (- sr)) sl_all Harr) as Hrest.
    slice_norm.
    replace (Z.to_nat (- - stride)) with (Z.to_nat stride) in * by lia.
    replace (Nat.min (Z.to_nat stride) n) with (Z.to_nat stride) in * by lia.
    replace (Z.to_nat (- sr)) with s in * by lia.
    eapply (is_grid_reshape _ _ _ s m) in Hsa; [|lia..].
    destruct (is_grid_vstack _ _ _ _ _ _ _ Hrest Hsa) as (out & Hout & Hg).
    exists out. eexists. split; [exact Hout|].
    eapply is_grid_reshape; [exact Hg|lia|reflexivity].
Qed.

Lemma shift_cols_far arr row_arr n m f sc stride :
  is_grid row_arr n m f -> (0 < stride <= Z.of_nat m)%Z ->
  (Z.of_nat m < Z.abs sc)%Z ->
  exists out g,
    shift_cols arr row_arr sc stride = Ok out /\
    is_grid out n (Z.to_nat (Z.abs sc)) g.
Proof.
  intros Harr Hs Hr. unfold shift_cols.
  pose proof (tile_cover sc stride (Z.to_nat (Z.abs sc)) ltac:(lia) ltac:(lia))
    as Hcov.
  destruct (tile_count_abs sc stride ltac:(lia)) as (Hq0 & _ & _).
  set (q := tile_count (Z.abs sc) sc stride) in *.
  set (s := Z.to_nat (Z.abs sc)) in *.
  replace (Nat.min (Z.to_nat stride) s) with (Z.to_nat stride) in Hcov by lia.
  destruct (Z.ltb_spec 0 stride); [|lia].
  rewrite !tile_ok by lia.
  destruct (Z.ltb_spec 0 sc); [|destruct (Z.ltb_spec sc 0); [|lia]]; cbn [bind].
  - pose proof (is_grid_getitem _ _ _ _ sl_all (sl_to stride) Harr) as Hblk.
    pose proof (is_grid_tile_nat _ _ _ _ (Z.to_nat 1) (Z.to_nat q) Hblk) as Ht.
    pose proof (is_grid_getitem _ _ _ _ sl_all (sl_from (- sc)) Ht) as Hsa.
    pose proof (is_grid_getitem _ _ _ _ sl_all (sl_to (- sc)) Harr) as Hrest.
    slice_norm.
    replace (Nat.min (Z.to_nat stride) m) with (Z.to_nat stride) in * by lia.
    replace (Z.to_nat (- - sc)) with s in * by lia.
    eapply (is_grid_reshape _ _ _ n s) in Hsa; [|lia..].
    destruct (is_grid_hstack _ _ _ _ _ _ _ Hsa Hrest) as (out & Hout & Hg).
    exists out. eexists. split; [exact Hout|].
    eapply is_grid_reshape; [exact Hg|reflexivity|lia].
  - pose proof (is_grid_getitem _ _ _ _ sl_all (sl_from (- stride)) Harr) as Hblk.
    pose proof (is_grid_tile_nat _ _ _ _ (Z.to_nat 1) (Z.to_nat q) Hblk) as Ht.
    pose proof (is_grid_getitem _ _ _ _ sl_all (sl_to (- sc)) Ht) as Hsa.
    pose proof (is_grid_getitem _ _ _ _ sl_all (sl_from (- sc)) Harr) as Hrest.
    slice_norm.
    replace (Z.to_nat (- - stride)) with (Z.to_nat stride) in * by lia.
    replace (Nat.min (Z.to_nat stride) m) with (Z.to_nat stride) in * by lia.
    replace (Z.to_nat (- sc)) with s in * by lia.
    eapply (is_grid_reshape _ _ _ n s) in Hsa; [|lia..].
    destruct (is_grid_hstack _ _ _ _ _ _ _ Hrest Hsa) as (out & Hout & Hg).
    exists out. eexists. split; [exact Hout|].
    eapply is_grid_reshape; [exact Hg|reflexivity|lia].
Qed.

(** X7: with replication ([0 < stride <= rows]) a row shift beyond the grid
    ([|shift_row| > rows]) and no column shift does not return: the row pass
    builds [|shift_row|] rows, which the column pass cannot copy into the
    [rows]-row result, and NumPy's [ValueError] is raised. *)
Theorem shift_2d_far_row_shift_raises (arr : ndarray) (shift_row stride : Z) :
  wf arr -> (0 < stride <= Z.of_nat (nrows arr))%Z ->
  (Z.of_nat (nrows arr) < Z.abs shift_row)%Z ->
  shift_2d arr (shift_row, 0%Z) stride = Raise ValueError.
Proof.
  intros Hwf Hs Hr. pose proof (is_grid_self _ Hwf) as Harr.
  destruct (shift_rows_far _ _ _ _ shift_row stride Harr Hs Hr)
    as (ra & g & Hra & Hg).
  unfold shift_2d. rewrite Hra. cbn [bind]. unfold shift_cols.
  change (0 <? 0)%Z with false. cbn match.
  pose proof (is_grid_getitem _ _ _ _ sl_all sl_all Hg) as (Hn & _).
  unfold setitem, broadcast_to. rewrite Hn.
  rewrite decide_False; [reflexivity|].
  assert (Hz : nrows (zeros_like arr) = nrows arr).
  { unfold zeros_like, zeros, nrows. cbn [rows]. apply length_replicate. }
  rewrite Hz, !slice_all_len. lia.
Qed.

Lemma shift_2d_far_row_shift_raises_witness :
  wf grid6 /\ (0 < 1 <= Z.of_nat (nrows grid6))%Z /\
  (Z.of_nat (nrows grid6) < Z.abs 7)%Z /\
  shift_2d grid6 (7%Z, 0%Z) 1%Z = Raise ValueError.
Proof.
  assert (Hs : (0 < 1 <= Z.of_nat (nrows grid6))%Z) by (vm_compute; split; congruence).
  assert (Hr : (Z.of_nat (nrows grid6) < Z.abs 7)%Z) by (vm_compute; reflexivity).
  split; [exact wf_grid6|]. split; [exact Hs|]. split; [exact Hr|].
  exact (shift_2d_far_row_shift_raises grid6 7%Z 1%Z wf_grid6 Hs Hr).
Defined.

(** X8: with replication ([0 < stride <= cols]) a column shift beyond the grid ([|shift_col| > cols]) raises nothing and returns
    a grid of the wrong width: [|shift_col|] columns instead of [cols]. *)
Theorem shift_2d_far_col_shift_widens
    (arr : ndarray) (shift_row shift_col stride : Z) :
  wf arr -> (0 < stride <= Z.of_nat (ncols arr))%Z ->
  (Z.abs shift_row <= Z.of_nat (nrows arr))%Z ->
  (Z.of_nat (ncols arr) < Z.abs shift_col)%Z ->
  exists out,
    shift_2d arr (shift_row, shift_col) stride = Ok out /\
    nrows out = nrows arr /\ ncols out = Z.to_nat (Z.abs shift_col) /\
    ncols out <> ncols arr /\ wf out.
Proof.
  intros Hwf Hs Hr Hc. pose proof (is_grid_self _ Hwf) as Harr.
  destruct (shift_rows_strided _ _ _ _ shift_row stride Harr ltac:(lia) Hr)
    as (ra & Hra & Hg).
  destruct (shift_cols_far arr _ _ _ _ shift_col stride Hg Hs Hc)
    as (out & g & Ho & Hn & Hm & Hw & _).
  exists out. unfold shift_2d. rewrite Hra. cbn [bind].
  repeat split; trivial. lia.
Qed.

Lemma shift_2d_far_col_shift_widens_witness :
  wf grid6 /\ (0 < 1 <= Z.of_nat (ncols grid6))%Z /\
  (Z.abs 0 <= Z.of_nat (nrows grid6))%Z /\
  (Z.of_nat (ncols grid6) < Z.abs 7)%Z /\
  exists out,
    shift_2d grid6 (0%Z, 7%Z) 1%Z = Ok out /\
    nrows out = nrows grid6 /\ ncols out = Z.to_nat (Z.abs 7) /\
    ncols out <> ncols grid6 /\ wf out.
Proof.
  assert (Hs : (0 < 1 <= Z.of_nat (ncols grid6))%Z) by (vm_compute; split; congruence).
  assert (Hr : (Z.abs 0 <= Z.of_nat (nrows grid6))%Z) by (vm_compute; congruence).
  assert (Hc : (Z.of_nat (ncols grid6) < Z.abs 7)%Z) by (vm_compute; reflexivity).
  split; [exact wf_grid6|]. split; [exact Hs|]. split; [exact Hr|].
  split; [exact Hc|].
  exact (shift_2d_far_col_shift_widens grid6 0%Z 7%Z 1%Z wf_grid6 Hs Hr Hc).
Defined.

(** ** More on [add_border_2d] *)

Lemma add_border_2d_grid arr n m f bw stride :
  is_grid arr n m f -> (0 < bw)%Z ->
  exists out g,
    add_border_2d arr bw stride = Ok out /\
    is_grid out (n + 2 * Z.to_nat bw) (m + 2 * Z.to_nat bw) g /\
    (forall i j, i < n -> j < m ->
       g (Z.to_nat bw + i) (Z.to_nat bw + j) = f i j) /\
    ((stride <= 0)%Z -> forall i j,
       ~ (Z.to_nat bw <= i < Z.to_nat bw + n /\
          Z.to_nat bw <= j < Z.to_nat bw + m) -> g i j = 0%Z).
Proof.
  intros Harr Hb. destruct (Z.lt_ge_cases 0 stride) as [Hs|Hs].
  - destruct (add_border_2d_strided _ _ _ _ _ _ Harr Hb Hs) as (out & Ho & Hg).
    exists out. eexists. split; [exact Ho|]. split; [exact Hg|]. split.
    + intros i j Hi Hj. rewrite border_fn_center by lia. f_equal; lia.
    + lia.
  - destruct (add_border_2d_zero_border _ _ _ _ _ _ Harr Hb Hs)
      as (out & Ho & Hg).
    exists out. eexists. split; [exact Ho|]. split; [exact Hg|]. split.
    + intros i j Hi Hj. unfold center_fn. rewrite decide_True by lia.
      f_equal; lia.
    + intros _ i j Hout. unfold center_fn. by rewrite decide_False.
Qed.

(** X9: for every positive border width [b] and every stride,
    [add_border_2d] returns a rectangular grid of shape
    [(rows + 2b) x (cols + 2b)] whose cell [(b + i, b + j)] is input cell
    [(i, j)]: the input sits unchanged in the centre. *)
Theorem add_border_2d_centre (arr : ndarray) (border_width stride : Z) :
  wf arr -> (0 < border_width)%Z ->
  exists out,
    add_border_2d arr border_width stride = Ok out /\
    nrows out = nrows arr + 2 * Z.to_nat border_width /\
    ncols out = ncols arr + 2 * Z.to_nat border_width /\
    wf out /\
    forall i j, i < nrows arr -> j < ncols arr ->
      get out (Z.to_nat border_width + i) (Z.to_nat border_width + j)
      = get arr i j.
Proof.
  intros Hwf Hb. pose proof (is_grid_self _ Hwf) as Harr.
  destruct (add_border_2d_grid _ _ _ _ border_width stride Harr Hb)
    as (out & g & Ho & (Hn & Hm & Hw & Hg) & Hc & _).
  exists out. repeat split; trivial. intros i j Hi Hj.
  rewrite Hg by lia. rewrite Hc by trivial.
  symmetry. by apply wf_get_cell.
Qed.

Lemma add_border_2d_centre_witness :
  wf grid6 /\ (0 < 2)%Z /\
  exists out,
    add_border_2d grid6 2%Z 7%Z = Ok out /\
    nrows out = nrows grid6 + 2 * Z.to_nat 2 /\
    ncols out = ncols grid6 + 2 * Z.to_nat 2 /\
    wf out /\
    forall i j, i < nrows grid6 -> j < ncols grid6 ->
      get out (Z.to_nat 2 + i) (Z.to_nat 2 + j) = get grid6 i j.
Proof.
  assert (Hb : (0 < 2)%Z) by lia.
  split; [exact wf_grid6|]. split; [exact Hb|].
  exact (add_border_2d_centre grid6 2%Z 7%Z wf_grid6 Hb).
Defined.

(** X10: with zero fill ([stride <= 0]) and a positive border width, every
    cell of the output outside the centred copy of the input is 0. *)
Theorem add_border_2d_zero_fill_border (arr : ndarray) (border_width stride : Z) :
  wf arr -> (0 < border_width)%Z -> (stride <= 0)%Z ->
  exists out,
    add_border_2d arr border_width stride = Ok out /\
    forall i j,
      i < nrows arr + 2 * Z.to_nat border_width ->
      j < ncols arr + 2 * Z.to_nat border_width ->
      ~ (Z.to_nat border_width <= i < Z.to_nat border_width + nrows arr /\
         Z.to_nat border_width <= j < Z.to_nat border_width + ncols arr) ->
      get out i j = Some 0%Z.
Proof.
  intros Hwf Hb Hs. pose proof (is_grid_self _ Hwf) as Harr.
  destruct (add_border_2d_grid _ _ _ _ border_width stride Harr Hb)
    as (out & g & Ho & (Hn & Hm & Hw & Hg) & _ & Hz).
  exists out. split; [exact Ho|]. intros i j Hi Hj Hout.
  rewrite (Hg i j Hi Hj). f_equal. by apply Hz.
Qed.

Lemma add_border_2d_zero_fill_border_witness :
  wf grid6 /\ (0 < 3)%Z /\ (0 <= 0)%Z /\
  exists out,
    add_border_2d grid6 3%Z 0%Z = Ok out /\
    forall i j,
      i < nrows grid6 + 2 * Z.to_nat 3 ->
      j < ncols grid6 + 2 * Z.to_nat 3 ->
      ~ (Z.to_nat 3 <= i < Z.to_nat 3 + nrows grid6 /\
         Z.to_nat 3 <= j < Z.to_nat 3 + ncols grid6) ->
      get out i j = Some 0%Z.
Proof.
  assert (Hb : (0 < 3)%Z) by lia. assert (Hs : (0 <= 0)%Z) by lia.
  split; [exact wf_grid6|]. split; [exact Hb|]. split; [exact Hs|].
  exact (add_border_2d_zero_fill_border grid6 3%Z 0%Z wf_grid6 Hb Hs).
Defined.

(** X11: [border_width = 0] is not the identity: on every grid with more
    than one row or more than one column the call raises [ValueError], for
    every stride. *)
Theorem add_border_2d_zero_width_raises (arr : ndarray) (stride : Z) :
  1 < nrows arr \/ 1 < ncols arr ->
  add_border_2d arr 0 stride = Raise ValueError.
Proof. intros Hbig. by apply add_border_2d_width0. Qed.

Lemma add_border_2d_zero_width_raises_witness :
  (1 < nrows grid6 \/ 1 < ncols grid6) /\
  add_border_2d grid6 0 2%Z = Raise ValueError.
Proof.
  assert (Hbig : 1 < nrows grid6 \/ 1 < ncols grid6)
    by (left; vm_compute; lia).
  split; [exact Hbig|].
  exact (add_border_2d_zero_width_raises grid6 2%Z Hbig).
Defined.

Lemma nrows_zeros n m : nrows (zeros n m) = n.
Proof. unfold zeros, nrows. cbn [rows]. apply length_replicate. Qed.

(** X12: a negative border width never crops the grid: the call raises
    [ValueError] on every grid and for every stride. *)
Theorem add_border_2d_negative_width_raises
    (arr : ndarray) (border_width stride : Z) :
  (border_width < 0)%Z ->
  add_border_2d arr border_width stride = Raise ValueError.
Proof.
  intros Hb. unfold add_border_2d, bordered_zeros, np_zeros.
  destruct (_ || _) eqn:Hneg; [reflexivity|]. cbn [bind].
  apply orb_false_iff in Hneg as [Hx Hy].
  apply Z.ltb_ge in Hx. apply Z.ltb_ge in Hy.
  unfold setitem, broadcast_to. rewrite nrows_zeros.
  rewrite decide_False; [reflexivity|].
  intros [[Hn|Hn] _].
  - pose proof (slice_fits (Z.to_nat (Z.of_nat (nrows arr) + border_width * 2))
                  (sl border_width (- border_width))). lia.
  - lia.
Qed.

Lemma add_border_2d_negative_width_raises_witness :
  (-1 < 0)%Z /\ add_border_2d grid6 (-1)%Z 1%Z = Raise ValueError.
Proof.
  assert (Hb : (-1 < 0)%Z) by lia.
  split; [exact Hb|].
  exact (add_border_2d_negative_width_raises grid6 (-1)%Z 1%Z Hb).
Defined.

(** X13: with a valid stride ([0 < stride <= rows], [stride <= cols]) and a
    positive border width [b], output cell [(i, j)] is input cell
    [(border_src i, border_src j)]: along each axis an index in the leading
    border reads [i mod stride], an interior index reads [i - b], an index in
    the trailing border reads [len - stride + (i - len - b) mod stride]; the
    corners combine the two axes, so the order of the row and column fills
    does not show. *)
Theorem add_border_2d_cells (arr : ndarray) (border_width stride : Z) :
  wf arr -> (0 < border_width)%Z ->
  (0 < stride <= Z.of_nat (nrows arr))%Z -> (stride <= Z.of_nat (ncols arr))%Z ->
  exists out,
    add_border_2d arr border_width stride = Ok out /\
    forall i j,
      i < nrows arr + 2 * Z.to_nat border_width ->
      j < ncols arr + 2 * Z.to_nat border_width ->
      get out i j
      = get arr
          (border_src (Z.to_nat border_width) (Z.to_nat stride) (nrows arr) i)
          (border_src (Z.to_nat border_width) (Z.to_nat stride) (ncols arr) j).
Proof.
  intros Hwf Hb Hs Hm. pose proof (is_grid_self _ Hwf) as Harr.
  destruct (add_border_2d_valid _ _ _ _ _ _ Harr Hb Hs Hm)
    as (out & Ho & _ & _ & _ & Hg).
  exists out. split; [exact Ho|]. intros i j Hi Hj.
  rewrite (Hg i j Hi Hj). symmetry.
  apply wf_get_cell; trivial; apply border_src_lt; lia.
Qed.

Lemma add_border_2d_cells_witness :
  wf grid6 /\ (0 < 3)%Z /\
  (0 < 2 <= Z.of_nat (nrows grid6))%Z /\ (2 <= Z.of_nat (ncols grid6))%Z /\
  exists out,
    add_border_2d grid6 3%Z 2%Z = Ok out /\
    forall i j,
      i < nrows grid6 + 2 * Z.to_nat 3 ->
      j < ncols grid6 + 2 * Z.to_nat 3 ->
      get out i j
      = get grid6
          (border_src (Z.to_nat 3) (Z.to_nat 2) (nrows grid6) i)
          (border_src (Z.to_nat 3) (Z.to_nat 2) (ncols grid6) j).
Proof.
  assert (Hb : (0 < 3)%Z) by lia.
  assert (Hs : (0 < 2 <= Z.of_nat (nrows grid6))%Z) by (vm_compute; split; congruence).
  assert (Hm : (2 <= Z.of_nat (ncols grid6))%Z) by (vm_compute; congruence).
  split; [exact wf_grid6|]. split; [exact Hb|]. split; [exact Hs|].
  split; [exact Hm|].
  exact (add_border_2d_cells grid6 3%Z 2%Z wf_grid6 Hb Hs Hm).
Defined.

Lemma border_src_stride1 b n i :
  0 < n -> i < n + 2 * b ->
  border_src b 1 n i = clamp n (Z.of_nat i - Z.of_nat b).
Proof.
  intros Hn Hi. unfold border_src, clamp. rewrite !Nat.mod_1_r.
  repeat case_decide; lia.
Qed.

(** X14: [stride = 1] pads by edge replication: on a non-empty grid and for a
    positive border width [b], output cell [(i, j)] is the input cell at
    [(i - b, j - b)] clamped into the grid. *)
Theorem add_border_2d_stride1_clamps (arr : ndarray) (border_width : Z) :
  wf arr -> (0 < border_width)%Z -> 0 < nrows arr -> 0 < ncols arr ->
  exists out,
    add_border_2d arr border_width 1 = Ok out /\
    forall i j,
      i < nrows arr + 2 * Z.to_nat border_width ->
      j < ncols arr + 2 * Z.to_nat border_width ->
      get out i j
      = get arr (clamp (nrows arr) (Z.of_nat i - border_width))
          (clamp (ncols arr) (Z.of_nat j - border_width)).
Proof.
  intros Hwf Hb Hn Hm. pose proof (is_grid_self _ Hwf) as Harr.
  destruct (add_border_2d_valid _ _ _ _ border_width 1%Z Harr Hb
              ltac:(lia) ltac:(lia)) as (out & Ho & _ & _ & _ & Hg).
  exists out. split; [exact Ho|]. intros i j Hi Hj.
  rewrite (Hg i j Hi Hj). change (Z.to_nat 1) with 1.
  rewrite !border_src_stride1 by trivial.
  replace (Z.of_nat (Z.to_nat border_width)) with border_width by lia.
  symmetry. apply wf_get_cell; trivial; unfold clamp; lia.
Qed.

Lemma add_border_2d_stride1_clamps_witness :
  wf grid6 /\ (0 < 2)%Z /\ 0 < nrows grid6 /\ 0 < ncols grid6 /\
  exists out,
    add_border_2d grid6 2%Z 1 = Ok out /\
    forall i j,
      i < nrows grid6 + 2 * Z.to_nat 2 ->
      j < ncols grid6 + 2 * Z.to_nat 2 ->
      get out i j
      = get grid6 (clamp (nrows grid6) (Z.of_nat i - 2))
          (clamp (ncols grid6) (Z.of_nat j - 2)).
Proof.
  assert (Hb : (0 < 2)%Z) by lia.
  assert (Hn : 0 < nrows grid6) by (vm_compute; lia).
  assert (Hm : 0 < ncols grid6) by (vm_compute; lia).
  split; [exact wf_grid6|]. split; [exact Hb|]. split; [exact Hn|].
  split; [exact Hm|].
  exact (add_border_2d_stride1_clamps grid6 2%Z wf_grid6 Hb Hn Hm).
Defined.

Lemma border_src_mod b st n p i :
  0 < st <= n -> Nat.divide p st -> Nat.divide st b -> i < n + 2 * b ->
  border_src b st n i mod p = i mod p.
Proof.
  intros Hst Hp Hb Hi. unfold border_src.
  assert (Hpb : Nat.divide p b) by (by transitivity st).
  repeat case_decide.
  - by apply mod_mod_divide.
  - replace i with (i - b + b) at 2 by lia. by rewrite mod_add_divide.
  - rewrite Nat.Div0.add_mod, (mod_mod_divide _ st p Hp).
    rewrite <- Nat.Div0.add_mod.
    rewrite <- (mod_add_divide (n - st + (i - (n + b))) (st + b) p)
      by (by apply Nat.divide_add_r).
    f_equal. lia.
Qed.

(** X15: bordering a mosaic gives a mosaic.  If the grid repeats a [p x q]
    pattern, the stride is within the grid and a multiple of [p] and [q],
    and the border width is a positive multiple of the stride, the enlarged
    grid repeats the same pattern everywhere, borders and corners
    included. *)
Theorem add_border_2d_keeps_mosaic
    (arr : ndarray) (p q : nat) (pat : nat -> nat -> Z)
    (border_width stride : Z) :
  wf arr -> mosaic p q pat arr -> (0 < border_width)%Z ->
  (0 < stride <= Z.of_nat (nrows arr))%Z -> (stride <= Z.of_nat (ncols arr))%Z ->
  Nat.divide p (Z.to_nat stride) -> Nat.divide q (Z.to_nat stride) ->
  Nat.divide (Z.to_nat stride) (Z.to_nat border_width) ->
  exists out,
    add_border_2d arr border_width stride = Ok out /\
    nrows out = nrows arr + 2 * Z.to_nat border_width /\
    ncols out = ncols arr + 2 * Z.to_nat border_width /\
    mosaic p q pat out.
Proof.
  intros Hwf Hmos Hb Hs Hm Hdp Hdq Hdb.
  pose proof (is_grid_self _ Hwf) as Harr.
  destruct (add_border_2d_valid _ _ _ _ _ _ Harr Hb Hs Hm)
    as (out & Ho & Hn & Hc & _ & Hg).
  exists out. repeat split; trivial. intros i j Hi Hj.
  rewrite Hn in Hi. rewrite Hc in Hj. rewrite (Hg i j Hi Hj). f_equal.
  rewrite (mosaic_cell arr p q pat) by (trivial; apply border_src_lt; lia).
  by rewrite !border_src_mod by (trivial; lia).
Qed.

Lemma add_border_2d_keeps_mosaic_witness :
  wf bayer /\ mosaic 2 2 bayer_cell bayer /\ (0 < 4)%Z /\
  (0 < 2 <= Z.of_nat (nrows bayer))%Z /\ (2 <= Z.of_nat (ncols bayer))%Z /\
  Nat.divide 2 (Z.to_nat 2) /\ Nat.divide 2 (Z.to_nat 2) /\
  Nat.divide (Z.to_nat 2) (Z.to_nat 4) /\
  exists out,
    add_border_2d bayer 4%Z 2%Z = Ok out /\
    nrows out = nrows bayer + 2 * Z.to_nat 4 /\
    ncols out = ncols bayer + 2 * Z.to_nat 4 /\
    mosaic 2 2 bayer_cell out.
Proof.
  assert (Hb : (0 < 4)%Z) by lia.
  assert (Hs : (0 < 2 <= Z.of_nat (nrows bayer))%Z) by (vm_compute; split; congruence).
  assert (Hm : (2 <= Z.of_nat (ncols bayer))%Z) by (vm_compute; congruence).
  assert (Hd : Nat.divide 2 (Z.to_nat 2)) by (exists 1; reflexivity).
  assert (Hdb : Nat.divide (Z.to_nat 2) (Z.to_nat 4)) by (exists 2; reflexivity).
  split; [exact wf_bayer|]. split; [exact mosaic_bayer|]. split; [exact Hb|].
  split; [exact Hs|]. split; [exact Hm|]. split; [exact Hd|].
  split; [exact Hd|]. split; [exact Hdb|].
  exact (add_border_2d_keeps_mosaic bayer 2 2 bayer_cell 4%Z 2%Z
           wf_bayer mosaic_bayer Hb Hs Hm Hd Hd Hdb).
Defined.

Lemma slice_window k bw z :
  (0 < bw)%Z -> (Z.abs z <= bw)%Z ->
  slice_lo (k + 2 * Z.to_nat bw) (sl (bw - z) (bw - z + Z.of_nat k))
  = Z.to_nat (bw - z) /\
  slice_len (k + 2 * Z.to_nat bw) (sl (bw - z) (bw - z + Z.of_nat k)) = k.
Proof. intros Hb Hz. split; slice_arith. Qed.

(** X16: with zero fill a shift is a window of the bordered grid: for
    [|shift_row| <= b] and [|shift_col| <= b], [shift_2d] returns the
    [rows x cols] window of [add_border_2d(arr, b)] that starts at
    [(b - shift_row, b - shift_col)]. *)
Theorem shift_2d_is_window_of_border
    (arr : ndarray) (border_width shift_row shift_col stride : Z) :
  wf arr -> (stride <= 0)%Z -> (0 < border_width)%Z ->
  (Z.abs shift_row <= border_width)%Z -> (Z.abs shift_col <= border_width)%Z ->
  exists big,
    add_border_2d arr border_width stride = Ok big /\
    shift_2d arr (shift_row, shift_col) stride
    = Ok (getitem big
            (sl (border_width - shift_row)
               (border_width - shift_row + Z.of_nat (nrows arr)))
            (sl (border_width - shift_col)
               (border_width - shift_col + Z.of_nat (ncols arr)))).
Proof.
  intros Hwf Hs Hb Hr Hc. pose proof (is_grid_self _ Hwf) as Harr.
  set (n := nrows arr) in *. set (m := ncols arr) in *.
  destruct (add_border_2d_zero_border _ _ _ _ _ _ Harr Hb Hs)
    as (big & Ho & Hg).
  exists big. split; [exact Ho|].
  destruct (shift_2d_zero_fill _ _ _ _ shift_row shift_col _ Harr Hs)
    as (out & -> & Hout).
  f_equal.
  pose proof (is_grid_getitem _ _ _ _
    (sl (border_width - shift_row) (border_width - shift_row + Z.of_nat n))
    (sl (border_width - shift_col) (border_width - shift_col + Z.of_nat m))
    Hg) as Hwin.
  destruct (slice_window n border_width shift_row Hb Hr) as [Hlr Hnr].
  destruct (slice_window m border_width shift_col Hb Hc) as [Hlc Hnc].
  rewrite Hlr, Hnr, Hlc, Hnc in Hwin.
  eapply is_grid_ext; [exact Hout|exact Hwin|].
  intros i j Hi Hj. unfold center_fn. fn_arith.
Qed.

Lemma shift_2d_is_window_of_border_witness :
  wf grid6 /\ (0 <= 0)%Z /\ (0 < 2)%Z /\
  (Z.abs (-2) <= 2)%Z /\ (Z.abs 1 <= 2)%Z /\
  exists big,
    add_border_2d grid6 2%Z 0%Z = Ok big /\
    shift_2d grid6 ((-2)%Z, 1%Z) 0%Z
    = Ok (getitem big
            (sl (2 - -2) (2 - -2 + Z.of_nat (nrows grid6)))
            (sl (2 - 1) (2 - 1 + Z.of_nat (ncols grid6)))).
Proof.
  assert (Hs : (0 <= 0)%Z) by lia. assert (Hb : (0 < 2)%Z) by lia.
  assert (Hr : (Z.abs (-2) <= 2)%Z) by (vm_compute; congruence).
  assert (Hc : (Z.abs 1 <= 2)%Z) by (vm_compute; congruence).
  split; [exact wf_grid6|]. split; [exact Hs|]. split; [exact Hb|].
  split; [exact Hr|]. split; [exact Hc|].
  exact (shift_2d_is_window_of_border grid6 2%Z (-2)%Z 1%Z 0%Z
           wf_grid6 Hs Hb Hr Hc).
Defined.

(** ** Rows and columns are treated alike *)

Lemma is_grid_transpose a n m f :
  is_grid a n m f -> is_grid (transpose a) m n (fun i j => f j i).
Proof.
  intros (Hn & Hm & Hwf & Hget). unfold nrows in Hn.
  unfold is_grid, transpose, nrows, wf, get. cbn [rows ncols].
  rewrite Hm. repeat split.
  - by rewrite length_map, length_seq.
  - exact Hn.
  - apply Forall_fmap, Forall_forall. intros j _. unfold compose.
    by rewrite length_map.
  - intros i j Hi Hj. rewrite list_lookup_fmap, lookup_seq_lt by trivial.
    cbn [fmap option_fmap option_map]. rewrite list_lookup_fmap.
    specialize (Hget j i Hj Hi). unfold get in Hget.
    destruct (rows a !! j) as [r|]; [|done].
    cbn [fmap option_fmap option_map]. f_equal.
    by apply nth_lookup_Some.
Qed.

(** X17: [shift_2d] treats the two axes alike: for a shift within range,
    shifting the transposed grid by [(shift_col, shift_row)] gives the
    transpose of the grid shifted by [(shift_row, shift_col)]. *)
Theorem shift_2d_transpose (arr : ndarray) (shift_row shift_col stride : Z) :
  wf arr ->
  (Z.abs shift_row < Z.of_nat (nrows arr))%Z ->
  (Z.abs shift_col < Z.of_nat (ncols arr))%Z ->
  exists out,
    shift_2d arr (shift_row, shift_col) stride = Ok out /\
    shift_2d (transpose arr) (shift_col, shift_row) stride
    = Ok (transpose out).
Proof.
  intros Hwf Hr Hc. pose proof (is_grid_self _ Hwf) as Harr.
  set (n := nrows arr) in *. set (m := ncols arr) in *.
  destruct (shift_2d_grid _ _ _ _ shift_row shift_col stride Harr
              ltac:(lia) ltac:(lia)) as (out & Ho & Hout).
  exists out. split; [exact Ho|].
  destruct (shift_2d_grid _ _ _ _ shift_col shift_row stride
              (is_grid_transpose _ _ _ _ Harr) ltac:(lia) ltac:(lia))
    as (out' & -> & Hout').
  f_equal. eapply is_grid_ext;
    [exact Hout'|exact (is_grid_transpose _ _ _ _ Hout)|].
  intros i j Hi Hj. fn_arith.
Qed.

Lemma shift_2d_transpose_witness :
  wf grid6 /\
  (Z.abs 2 < Z.of_nat (nrows grid6))%Z /\
  (Z.abs (-1) < Z.of_nat (ncols grid6))%Z /\
  exists out,
    shift_2d grid6 (2%Z, (-1)%Z) 2%Z = Ok out /\
    shift_2d (transpose grid6) ((-1)%Z, 2%Z) 2%Z = Ok (transpose out).
Proof.
  assert (Hr : (Z.abs 2 < Z.of_nat (nrows grid6))%Z) by (vm_compute; reflexivity).
  assert (Hc : (Z.abs (-1) < Z.of_nat (ncols grid6))%Z) by (vm_compute; reflexivity).
  split; [exact wf_grid6|]. split; [exact Hr|]. split; [exact Hc|].
  exact (shift_2d_transpose grid6 2%Z (-1)%Z 2%Z wf_grid6 Hr Hc).
Defined.

(** X18: [add_border_2d] treats the two axes alike: for a positive border
    width and a stride that is zero fill or valid on both axes, bordering
    the transposed grid gives the transpose of the bordered grid, although
    the row borders are filled before the column borders. *)
Theorem add_border_2d_transpose (arr : ndarray) (border_width stride : Z) :
  wf arr -> (0 < border_width)%Z ->
  (stride <= Z.of_nat (nrows arr))%Z -> (stride <= Z.of_nat (ncols arr))%Z ->
  exists out,
    add_border_2d arr border_width stride = Ok out /\
    add_border_2d (transpose arr) border_width stride = Ok (transpose out).
Proof.
  intros Hwf Hb Hsn Hsm. pose proof (is_grid_self _ Hwf) as Harr.
  pose proof (is_grid_transpose _ _ _ _ Harr) as Ht.
  set (n := nrows arr) in *. set (m := ncols arr) in *.
  destruct (Z.lt_ge_cases 0 stride) as [Hs|Hs].
  - destruct (add_border_2d_valid _ _ _ _ border_width stride Harr Hb
                ltac:(lia) ltac:(lia)) as (out & Ho & Hout).
    exists out. split; [exact Ho|].
    destruct (add_border_2d_valid _ _ _ _ border_width stride Ht Hb
                ltac:(lia) ltac:(lia)) as (out' & -> & Hout').
    f_equal. eapply is_grid_ext;
      [exact Hout'|exact (is_grid_transpose _ _ _ _ Hout)|].
    intros i j Hi Hj. reflexivity.
  - destruct (add_border_2d_zero_border _ _ _ _ border_width stride Harr Hb Hs)
      as (out & Ho & Hout).
    exists out. split; [exact Ho|].
    destruct (add_border_2d_zero_border _ _ _ _ border_width stride Ht Hb Hs)
      as (out' & -> & Hout').
    f_equal. eapply is_grid_ext;
      [exact Hout'|exact (is_grid_transpose _ _ _ _ Hout)|].
    intros i j Hi Hj. unfold center_fn. fn_arith.
Qed.

Lemma add_border_2d_transpose_witness :
  wf grid6 /\ (0 < 3)%Z /\
  (2 <= Z.of_nat (nrows grid6))%Z /\ (2 <= Z.of_nat (ncols grid6))%Z /\
  exists out,
    add_border_2d grid6 3%Z 2%Z = Ok out /\
    add_border_2d (transpose grid6) 3%Z 2%Z = Ok (transpose out).
Proof.
  assert (Hb : (0 < 3)%Z) by lia.
  assert (Hn : (2 <= Z.of_nat (nrows grid6))%Z) by (vm_compute; congruence).
  assert (Hm : (2 <= Z.of_nat (ncols grid6))%Z) by (vm_compute; congruence).
  split; [exact wf_grid6|]. split; [exact Hb|]. split; [exact Hn|].
  split; [exact Hm|].
  exact (add_border_2d_transpose grid6 3%Z 2%Z wf_grid6 Hb Hn Hm).
Defined.

(** ** Composition *)

(** X19: a shift is not a rotation.  With zero fill, shifting down by
    [0 <= r] rows and back up by [r] does not restore the grid: the rows
    pushed over the bottom edge come back as zeros. *)
Theorem shift_2d_there_and_back (arr : ndarray) (r stride : Z) :
  wf arr -> (stride <= 0)%Z -> (0 <= r)%Z ->
  exists out,
    (a <-- shift_2d arr (r, 0%Z) stride ;; shift_2d a ((- r)%Z, 0%Z) stride)
    = Ok out /\
    nrows out = nrows arr /\ ncols out = ncols arr /\
    forall i j, i < nrows arr -> j < ncols arr ->
      get out i j
      = if decide (Z.of_nat i < Z.of_nat (nrows arr) - r)%Z
        then get arr i j else Some 0%Z.
Proof.
  intros Hwf Hs Hr. pose proof (is_grid_self _ Hwf) as Harr.
  destruct (shift_2d_zero_fill _ _ _ _ r 0%Z _ Harr Hs) as (a & -> & Ha).
  cbn [bind].
  destruct (shift_2d_zero_fill _ _ _ _ (- r)%Z 0%Z _ Ha Hs)
    as (out & -> & Hn & Hm & _ & Hg).
  exists out. repeat split; trivial. intros i j Hi Hj.
  rewrite (Hg i j Hi Hj). rewrite (wf_get_cell arr i j) by trivial.
  fn_arith. f_equal. f_equal; lia.
Qed.

Lemma shift_2d_there_and_back_witness :
  wf grid6 /\ (0 <= 0)%Z /\ (0 <= 2)%Z /\
  exists out,
    (a <-- shift_2d grid6 (2%Z, 0%Z) 0%Z ;; shift_2d a ((- 2)%Z, 0%Z) 0%Z)
    = Ok out /\
    nrows out = nrows grid6 /\ ncols out = ncols grid6 /\
    forall i j, i < nrows grid6 -> j < ncols grid6 ->
      get out i j
      = if decide (Z.of_nat i < Z.of_nat (nrows grid6) - 2)%Z
        then get grid6 i j else Some 0%Z.
Proof.
  assert (Hs : (0 <= 0)%Z) by lia. assert (Hr : (0 <= 2)%Z) by lia.
  split; [exact wf_grid6|]. split; [exact Hs|]. split; [exact Hr|].
  exact (shift_2d_there_and_back grid6 2%Z 0%Z wf_grid6 Hs Hr).
Defined.

(** X20: zero borders add up: bordering by [b1 > 0] and then by [b2 > 0]
    with zero fill is bordering once by [b1 + b2]. *)
Theorem add_border_2d_zero_fill_adds (arr : ndarray) (b1 b2 stride : Z) :
  wf arr -> (stride <= 0)%Z -> (0 < b1)%Z -> (0 < b2)%Z ->
  (a <-- add_border_2d arr b1 stride ;; add_border_2d a b2 stride)
  = add_border_2d arr (b1 + b2)%Z stride.
Proof.
  intros Hwf Hs H1 H2. pose proof (is_grid_self _ Hwf) as Harr.
  destruct (add_border_2d_zero_border _ _ _ _ b1 stride Harr H1 Hs)
    as (a & -> & Ha).
  cbn [bind].
  destruct (add_border_2d_zero_border _ _ _ _ b2 stride Ha H2 Hs)
    as (out & -> & Hout).
  destruct (add_border_2d_zero_border _ _ _ _ (b1 + b2)%Z stride Harr
              ltac:(lia) Hs) as (out' & -> & Hout').
  f_equal.
  eapply is_grid_ext;
    [exact Hout| eapply is_grid_reshape; [exact Hout'|lia..] |].
  intros i j Hi Hj. unfold center_fn. fn_arith.
Qed.

Lemma add_border_2d_zero_fill_adds_witness :
  wf grid6 /\ (0 <= 0)%Z /\ (0 < 1)%Z /\ (0 < 2)%Z /\
  (a <-- add_border_2d grid6 1%Z 0%Z ;; add_border_2d a 2%Z 0%Z)
  = add_border_2d grid6 (1 + 2)%Z 0%Z.
Proof.
  assert (Hs : (0 <= 0)%Z) by lia.
  assert (H1 : (0 < 1)%Z) by lia. assert (H2 : (0 < 2)%Z) by lia.
  split; [exact wf_grid6|]. split; [exact Hs|]. split; [exact H1|].
  split; [exact H2|].
  exact (add_border_2d_zero_fill_adds grid6 1%Z 2%Z 0%Z wf_grid6 Hs H1 H2).
Defined.

(** X21: edge-replicated borders add up: on a non-empty grid, bordering by
    [b1 > 0] and then by [b2 > 0] with [stride = 1] is bordering once by
    [b1 + b2]. *)
Theorem add_border_2d_stride1_adds (arr : ndarray) (b1 b2 : Z) :
  wf arr -> 0 < nrows arr -> 0 < ncols arr -> (0 < b1)%Z -> (0 < b2)%Z ->
  (a <-- add_border_2d arr b1 1 ;; add_border_2d a b2 1)
  = add_border_2d arr (b1 + b2)%Z 1.
Proof.
  intros Hwf Hn Hm H1 H2. pose proof (is_grid_self _ Hwf) as Harr.
  destruct (add_border_2d_valid _ _ _ _ b1 1%Z Harr H1 ltac:(lia) ltac:(lia))
    as (a & -> & Ha).
  cbn [bind].
  destruct (add_border_2d_valid _ _ _ _ b2 1%Z Ha H2 ltac:(lia) ltac:(lia))
    as (out & -> & Hout).
  destruct (add_border_2d_valid _ _ _ _ (b1 + b2)%Z 1%Z Harr
              ltac:(lia) ltac:(lia) ltac:(lia)) as (out' & -> & Hout').
  f_equal.
  eapply is_grid_ext;
    [exact Hout| eapply is_grid_reshape; [exact Hout'|lia..] |].
  intros i j Hi Hj. cbn beta. change (Z.to_nat 1) with 1.
  rewrite (border_src_stride1 (Z.to_nat b2) (nrows arr + 2 * Z.to_nat b1) i)
    by lia.
  rewrite (border_src_stride1 (Z.to_nat b2) (ncols arr + 2 * Z.to_nat b1) j)
    by lia.
  rewrite !border_src_stride1 by (unfold clamp; lia).
  unfold clamp. f_equal; lia.
Qed.

Lemma add_border_2d_stride1_adds_witness :
  wf grid6 /\ 0 < nrows grid6 /\ 0 < ncols grid6 /\ (0 < 1)%Z /\ (0 < 2)%Z /\
  (a <-- add_border_2d grid6 1%Z 1 ;; add_border_2d a 2%Z 1)
  = add_border_2d grid6 (1 + 2)%Z 1.
Proof.
  assert (Hn : 0 < nrows grid6) by (vm_compute; lia).
  assert (Hm : 0 < ncols grid6) by (vm_compute; lia).
  assert (H1 : (0 < 1)%Z) by lia. assert (H2 : (0 < 2)%Z) by lia.
  split; [exact wf_grid6|]. split; [exact Hn|]. split; [exact Hm|].
  split; [exact H1|]. split; [exact H2|].
  exact (add_border_2d_stride1_adds grid6 1%Z 2%Z wf_grid6 Hn Hm H1 H2).
Defined.
